(** * thaliPeerPoolOneAtATime: the default peer pool

    A shallow embedding of
    [thali/NextGeneration/thaliPeerPool/thaliPeerPoolOneAtATime.js].

    The pool is a JavaScript object with three fields of its own
    ([_stopped], [_serialPromiseQueue], [_wifiReplicationCount]) on top of
    the fields of its base class.  Peer actions are objects owned by the
    caller; the pool overwrites their [kill] property, so actions live in a
    heap and are named by reference.  Everything the file calls but does not
    define (the peer action's [start] and original [kill], the logger) is
    recorded as an event of a trace.  The methods of the base class, which
    are called with the pool as [this], are parameters that may change the
    whole world. *)

From Stdlib Require Import QArith.
From stdpp Require Import base gmap list strings pretty.

Local Open Scope string_scope.
Local Open Scope list_scope.

(** ** JavaScript values, exceptions, completions *)

Definition ref := nat.

(** A JavaScript number as this file uses them: [Infinity], or a finite
    number.  The only arithmetic is a division by two, which is exact. *)
Inductive JsNumber :=
| Infinity
| Num (q : Q).

(** The option object handed to [new ForeverAgent.SSL(...)]. *)
Record AgentOptions := mkAgentOptions {
  keepAlive : bool;
  keepAliveMsecs : JsNumber;
  maxSockets : JsNumber;
  maxFreeSockets : JsNumber;
  ciphers : string;
  pskIdentity : string;
  pskKey : string
}.

Inductive Value :=
| VUndefined
| VNull
| VBool (b : bool)
| VObject (a : ref)
| VAgent (options : AgentOptions)
| VPromise
| VFunction
| VModule.

(** What can be thrown.  [Error msg] is [new Error(msg)] built in this file;
    [Thrown e] is whatever a peer action's [start] throws; [BaseError e] is
    whatever a method of the base class throws. *)
Inductive Exn :=
| Error (msg : string)
| ReferenceError (name : string)
| TypeError (what : string)
| Thrown (e : string)
| BaseError (e : string).

Inductive Completion (A : Type) :=
| Normal (v : A)
| Throw (e : Exn).
Arguments Normal {A} v.
Arguments Throw {A} e.

(** ** Identifier resolution

    A scope chain, innermost scope first.  Reading an identifier that no
    scope of the chain binds is a [ReferenceError]. *)

Definition Scope := list (string * Value).

Fixpoint lookup_scope (sc : Scope) (x : string) : option Value :=
  match sc with
  | [] => None
  | (y, v) :: rest => if String.eqb x y then Some v else lookup_scope rest x
  end.

Fixpoint resolve_identifier (chain : list Scope) (x : string) : option Value :=
  match chain with
  | [] => None
  | sc :: outer =>
      match lookup_scope sc x with
      | Some v => Some v
      | None => resolve_identifier outer x
      end
  end.

(** The bindings at the top of the file: lines 3 to 12 and the constructor
    of line 70, with the names the module wrapper of Node.js provides. *)
Definition module_scope : Scope :=
  [ ("util", VModule); ("ThaliPeerPoolInterface", VFunction);
    ("thaliConfig", VModule); ("ForeverAgent", VModule);
    ("logger", VModule); ("Utils", VModule); ("Promise", VFunction);
    ("PromiseQueue", VFunction); ("ThaliReplicationPeerAction", VFunction);
    ("assert", VFunction); ("ThaliPeerPoolOneAtATime", VFunction);
    ("exports", VModule); ("require", VFunction); ("module", VModule);
    ("__filename", VModule); ("__dirname", VModule) ].

(** ** Peer actions *)

(** What the caller's [start] does when it is invoked: it throws at once, or
    it returns a promise, which settles later. *)
Inductive StartBehaviour :=
| ThrowsSynchronously (e : string)
| ReturnsPromise.

Inductive Outcome :=
| Resolves
| Rejects (err : string).

(** The function stored in the [kill] property of an action: the one the
    action came with, or the wrapper of lines 134 to 150, which closes over
    [peerId] and [originalKill]. *)
Inductive KillFn :=
| OriginalKill
| CountingKill (peerId : string) (originalKill : KillFn).

(** The connection type an action is associated with.  The class comment
    speaks of it; no line of the file reads it. *)
Inductive ConnectionType :=
| MULTI_PEER_CONNECTIVITY_FRAMEWORK
| BLUETOOTH
| TCP_NATIVE.

(** A peer action: what its getters return, what its [start] does, and the
    function now stored in its [kill] property. *)
Record PeerAction := mkPeerAction {
  getId : string;
  getPeerIdentifier : string;
  getActionType : string;
  getConnectionType : ConnectionType;
  getPskIdentity : string;
  getPskKey : string;
  start_behaviour : StartBehaviour;
  kill : KillFn
}.

Definition set_kill (k : KillFn) (act : PeerAction) : PeerAction :=
  mkPeerAction (getId act) (getPeerIdentifier act) (getActionType act)
    (getConnectionType act) (getPskIdentity act) (getPskKey act)
    (start_behaviour act) k.

(** ** Events *)

Inductive Level := Debug | ErrorLevel.

Inductive Event :=
| EvStart (a : ref) (arg : Value)
| EvKill (a : ref)
| EvLog (level : Level) (msg : string)
| EvResolve (v : Value)
| EvThrown (e : Exn).

(** The handlers chained on the promise that [start] returned. *)
Inductive Reaction :=
| StartActionHandlers
| SerialClosureHandlers.

(** ** The modules the file requires *)

Class ThaliConfig := {
  TCP_TIMEOUT_WIFI : Q;
  SUPPORTED_PSK_CIPHERS : string
}.

Class ThaliReplicationPeerAction := {
  actionType : string
}.

(** What a plain object inherits from [Object.prototype]: the names of the
    inherited properties, and the text the engine gives for the inherited
    value in ['...' + value].  Both depend on the engine. *)
Class ObjectPrototype := {
  inherited : list string;
  inherited_text : string -> string
}.

(** Modelled from the spec: [PromiseQueue] of [../promiseQueue], the serial
    lane, is an ordered sequence of pending execution closures of which at
    most one runs at a time, in FIFO order, each running to completion
    before the next starts; a closure completes by calling [resolve].  The
    spec does not say what the lane does when a closure throws, so that is a
    parameter: the lane is released, or it stays taken. *)
Class PromiseQueueModel := {
  releases_on_throw : bool
}.

Record PromiseQueue := mkPromiseQueue {
  queued : list ref;
  running : bool
}.

Definition new_PromiseQueue : PromiseQueue := mkPromiseQueue [] false.

(** ** The world: the pool, the heap of actions, the pending promises

    [_wifiReplicationCount] holds the own properties of the object of line
    74; [B] is the type of the fields of the base class. *)

Record PoolWorld (B : Type) := mkWorld {
  _stopped : bool;
  _serialPromiseQueue : PromiseQueue;
  _wifiReplicationCount : gmap string nat;
  super_fields : B;
  heap : gmap ref PeerAction;
  promises : list (ref * Reaction);
  trace : list Event
}.
Arguments mkWorld {B}.
Arguments _stopped {B}.
Arguments _serialPromiseQueue {B}.
Arguments _wifiReplicationCount {B}.
Arguments super_fields {B}.
Arguments heap {B}.
Arguments promises {B}.
Arguments trace {B}.

(** The base class [ThaliPeerPoolInterface]: fields of its own and the three
    methods this file calls through [super_], each with the pool as [this]
    (and [enqueue] with the action): they see and may change the world. *)
Class ThaliPeerPoolInterface := {
  base : Type;
  super_ : base;
  super_enqueue :
    ref -> PoolWorld base -> (Value + string) * PoolWorld base;
  super_start : PoolWorld base -> (Value + string) * PoolWorld base;
  super_stop : PoolWorld base -> (Value + string) * PoolWorld base
}.

Abbreviation World := (PoolWorld base).

Section Pool.

Context {config : ThaliConfig} {replication : ThaliReplicationPeerAction}
        {interface : ThaliPeerPoolInterface} {lane : PromiseQueueModel}
        {prototype : ObjectPrototype}.

Definition set_stopped (b : bool) (w : World) : World :=
  mkWorld b (_serialPromiseQueue w) (_wifiReplicationCount w)
    (super_fields w) (heap w) (promises w) (trace w).

Definition set_queue (q : PromiseQueue) (w : World) : World :=
  mkWorld (_stopped w) q (_wifiReplicationCount w)
    (super_fields w) (heap w) (promises w) (trace w).

Definition set_count (m : gmap string nat) (w : World) : World :=
  mkWorld (_stopped w) (_serialPromiseQueue w) m
    (super_fields w) (heap w) (promises w) (trace w).

Definition set_super (b : base) (w : World) : World :=
  mkWorld (_stopped w) (_serialPromiseQueue w) (_wifiReplicationCount w)
    b (heap w) (promises w) (trace w).

Definition set_heap (h : gmap ref PeerAction) (w : World) : World :=
  mkWorld (_stopped w) (_serialPromiseQueue w) (_wifiReplicationCount w)
    (super_fields w) h (promises w) (trace w).

Definition set_promises (ps : list (ref * Reaction)) (w : World) : World :=
  mkWorld (_stopped w) (_serialPromiseQueue w) (_wifiReplicationCount w)
    (super_fields w) (heap w) ps (trace w).

Definition set_trace (t : list Event) (w : World) : World :=
  mkWorld (_stopped w) (_serialPromiseQueue w) (_wifiReplicationCount w)
    (super_fields w) (heap w) (promises w) t.

(** ** A state and exception monad *)

Definition M (A : Type) : Type := World -> Completion A * World.

Definition ret {A} (v : A) : M A := fun w => (Normal v, w).

Definition throw {A} (e : Exn) : M A := fun w => (Throw e, w).

Definition bind {A B} (m : M A) (k : A -> M B) : M B :=
  fun w =>
    match m w with
    | (Normal v, w') => k v w'
    | (Throw e, w') => (Throw e, w')
    end.

Notation "x <- m ;; k" := (bind m (fun x => k))
  (at level 100, m at next level, right associativity).
Notation "m ;;; k" := (bind m (fun _ => k))
  (at level 100, right associativity).

Definition gets {A} (f : World -> A) : M A := fun w => (Normal (f w), w).

Definition modify (f : World -> World) : M unit := fun w => (Normal tt, f w).

Definition emit (ev : Event) : M unit :=
  modify (fun w => set_trace (trace w ++ [ev]) w).

Definition logger_debug (msg : string) : M unit := emit (EvLog Debug msg).

Definition logger_error (msg : string) : M unit := emit (EvLog ErrorLevel msg).

Definition deref (a : ref) : M PeerAction :=
  fun w =>
    match heap w !! a with
    | Some act => (Normal act, w)
    | None => (Throw (TypeError "not a peer action"), w)
    end.

Definition identifier (chain : list Scope) (x : string) : M Value :=
  match resolve_identifier chain x with
  | Some v => ret v
  | None => throw (ReferenceError x)
  end.

(** What [object[key]] reads: an own property, else the property inherited
    from [Object.prototype], else [undefined]. *)
Inductive Property :=
| Undefined
| Number (n : nat)
| Inherited (name : string).

Definition get_property (object : gmap string nat) (key : string) : Property :=
  match object !! key with
  | Some n => Number n
  | None => if bool_decide (key ∈ inherited) then Inherited key else Undefined
  end.

(** ['...' + count] for a count read from the map. *)
Definition show_count (count : Property) : string :=
  match count with
  | Undefined => "undefined"
  | Number n => pretty n
  | Inherited name => inherited_text name
  end.

(** ** Calling into a peer action *)

(** [a.start(arg)], and the handlers chained on what it returns. *)
Definition invoke_start (a : ref) (arg : Value) (then_ : Reaction) : M Value :=
  act <- deref a ;;
  emit (EvStart a arg) ;;;
  match start_behaviour act with
  | ThrowsSynchronously e => throw (Thrown e)
  | ReturnsPromise =>
      modify (fun w => set_promises (promises w ++ [(a, then_)]) w) ;;;
      ret VPromise
  end.

(** The expression [peerAction.start(actionAgent)], which occurs on line 93
    and on line 195: the object is read first, then the argument. *)
Definition peerAction_start_actionAgent (chain : list Scope)
    (then_ : Reaction) : M Value :=
  target <- identifier chain "peerAction" ;;
  arg <- identifier chain "actionAgent" ;;
  match target with
  | VObject a => invoke_start a arg then_
  | _ => throw (TypeError "peerAction.start is not a function")
  end.

(** Running the function stored in [kill], with the action as [this]. *)
Fixpoint apply_kill (k : KillFn) (a : ref) : M Value :=
  match k with
  | OriginalKill => emit (EvKill a) ;;; ret VNull
  | CountingKill peerId originalKill =>
      count <- gets (fun w => get_property (_wifiReplicationCount w) peerId) ;;
      match count with
      | Number 1 =>
          modify (fun w => set_count (delete peerId (_wifiReplicationCount w)) w)
      | Number 2 =>
          modify (fun w => set_count (<[peerId := 1]> (_wifiReplicationCount w)) w)
      | _ => logger_error ("Count had to be 1 or 2 - " ++ show_count count)
      end ;;;
      apply_kill originalKill a
  end.

(** [a.kill()] *)
Definition invoke_kill (a : ref) : M Value :=
  act <- deref a ;;
  apply_kill (kill act) a.

(** ** The pool *)

Definition ENQUEUE_WHEN_STOPPED : string := "We are stopped".

(** The constructor, lines 70 to 75, in a heap of actions. *)
Definition ThaliPeerPoolOneAtATime (h : gmap ref PeerAction) : World :=
  mkWorld true new_PromiseQueue ∅ super_ h [] [].

Definition new_ForeverAgent_SSL (act : PeerAction) : AgentOptions :=
  {| keepAlive := true;
     keepAliveMsecs := Num (TCP_TIMEOUT_WIFI / 2);
     maxSockets := Infinity;
     maxFreeSockets := Num 256;
     ciphers := SUPPORTED_PSK_CIPHERS;
     pskIdentity := getPskIdentity act;
     pskKey := getPskKey act |}.

Definition _startAction (peerAction : ref) : M Value :=
  act <- deref peerAction ;;
  let actionAgent := VAgent (new_ForeverAgent_SSL act) in
  let locals : Scope :=
    [("peerAction", VObject peerAction); ("actionAgent", actionAgent)] in
  peerAction_start_actionAgent [locals; module_scope] StartActionHandlers.

Definition _wifiEnqueue (peerAction : ref) : M Value :=
  act <- deref peerAction ;;
  if negb (String.eqb (getActionType act) actionType) then
    _startAction peerAction
  else
    let peerId := getPeerIdentifier act in
    let wrap_and_start : M Value :=
      act' <- deref peerAction ;;
      let originalKill := kill act' in
      modify (fun w =>
        set_heap (<[peerAction := set_kill (CountingKill peerId originalKill) act']>
                    (heap w)) w) ;;;
      _startAction peerAction in
    count <- gets (fun w => get_property (_wifiReplicationCount w) peerId) ;;
    match count with
    | Undefined | Number 0 =>
        modify (fun w => set_count (<[peerId := 1]> (_wifiReplicationCount w)) w) ;;;
        wrap_and_start
    | Number 1 =>
        modify (fun w => set_count (<[peerId := 2]> (_wifiReplicationCount w)) w) ;;;
        wrap_and_start
    | Number 2 => invoke_kill peerAction
    | _ =>
        logger_error ("We got an illegal count: " ++ show_count count) ;;;
        wrap_and_start
    end.

(** Lines 155 to 177: the body is a comment. *)
Definition _bluetoothEnqueue (peerAction : ref) : M Value := ret VUndefined.

(** [super_.prototype.method.apply(this, arguments)]: the method of the
    base class runs on the pool as it is, and what it returns or throws is
    returned or thrown. *)
Definition call_super (method : World -> (Value + string) * World) : M Value :=
  fun w =>
    match method w with
    | (inl v, w') => (Normal v, w')
    | (inr e, w') => (Throw (BaseError e), w')
    end.

(** The scopes around line 195: the parameters of the closure, then the
    parameter and the variable of [enqueue], then the module. *)
Definition closure_parameters : Scope :=
  [("resolve", VFunction); ("reject", VFunction)].

Definition enqueue_variables (peerAction : ref) : Scope :=
  [("peerAction", VObject peerAction); ("result", VUndefined)].

(** The closure of lines 193 to 204, closed over [peerAction]. *)
Definition serial_closure (peerAction : ref) : M Value :=
  act <- deref peerAction ;;
  logger_debug (getId act ++ " - Peer Action Started") ;;;
  peerAction_start_actionAgent
    [closure_parameters; enqueue_variables peerAction; module_scope]
    SerialClosureHandlers.

Definition PromiseQueue_enqueue (closure : ref) : M unit :=
  modify (fun w =>
    let q := _serialPromiseQueue w in
    set_queue (mkPromiseQueue (queued q ++ [closure]) (running q)) w).

Definition enqueue (peerAction : ref) : M Value :=
  stopped <- gets _stopped ;;
  if stopped then throw (Error ENQUEUE_WHEN_STOPPED)
  else
    result <- call_super (super_enqueue peerAction) ;;
    PromiseQueue_enqueue peerAction ;;;
    ret result.

Definition start : M Value :=
  modify (set_stopped false) ;;;
  call_super super_start.

Definition stop : M Value :=
  modify (set_stopped true) ;;;
  modify (set_count ∅) ;;;
  call_super super_stop.

(** ** The event loop *)

Definition release_lane (w : World) : World :=
  set_queue (mkPromiseQueue (queued (_serialPromiseQueue w)) false) w.

(** The handlers chained on [start]'s promise: lines 94 to 101 for
    [_startAction], lines 196 to 203 for the closure of [enqueue], whose
    [resolve(true)] completes the closure and so releases the lane. *)
Definition react (a : ref) (then_ : Reaction) (o : Outcome) : M unit :=
  match then_ with
  | StartActionHandlers =>
      match o with
      | Resolves => logger_debug "action returned successfully from start"
      | Rejects err =>
          logger_debug ("action returned with error from start" ++ err)
      end
  | SerialClosureHandlers =>
      match o with
      | Resolves => ret tt
      | Rejects err => logger_debug ("Got err " ++ err)
      end ;;;
      act <- deref a ;;
      logger_debug (getId act ++ " - Peer Action Stopped") ;;;
      invoke_kill a ;;;
      emit (EvResolve (VBool true)) ;;;
      modify release_lane
  end.

Fixpoint take_promise (a : ref) (ps : list (ref * Reaction))
    : option (Reaction * list (ref * Reaction)) :=
  match ps with
  | [] => None
  | (b, r) :: rest =>
      if Nat.eqb a b then Some (r, rest)
      else
        match take_promise a rest with
        | Some (r', rest') => Some (r', (b, r) :: rest')
        | None => None
        end
  end.

(** The oldest pending promise of [a.start] settles. *)
Definition settle (a : ref) (o : Outcome) : M unit :=
  ps <- gets promises ;;
  match take_promise a ps with
  | None => ret tt
  | Some (then_, rest) =>
      modify (set_promises rest) ;;;
      react a then_ o
  end.

(** Modelled from the spec: the serial lane takes its next closure when no
    closure is running, in the order of submission. *)
Definition PromiseQueue_turn : M unit :=
  fun w =>
    let q := _serialPromiseQueue w in
    if running q then (Normal tt, w)
    else
      match queued q with
      | [] => (Normal tt, w)
      | closure :: rest =>
          match serial_closure closure (set_queue (mkPromiseQueue rest true) w) with
          | (Normal _, w') => (Normal tt, w')
          | (Throw e, w') =>
              let w'' := set_trace (trace w' ++ [EvThrown e]) w' in
              (Normal tt, if releases_on_throw then release_lane w'' else w'')
          end
      end.

(** What can happen to a pool: a caller calls one of its methods or kills an
    action, a promise settles, the serial lane takes a turn. *)
Inductive Call :=
| call_start
| call_stop
| call_enqueue (peerAction : ref)
| call_wifiEnqueue (peerAction : ref)
| call_bluetoothEnqueue (peerAction : ref)
| call_kill (peerAction : ref)
| settles (peerAction : ref) (o : Outcome)
| lane_turn.

Definition step (c : Call) : M Value :=
  match c with
  | call_start => start
  | call_stop => stop
  | call_enqueue a => enqueue a
  | call_wifiEnqueue a => _wifiEnqueue a
  | call_bluetoothEnqueue a => _bluetoothEnqueue a
  | call_kill a => invoke_kill a
  | settles a o => settle a o ;;; ret VUndefined
  | lane_turn => PromiseQueue_turn ;;; ret VUndefined
  end.

(** A caller that goes on after an exception. *)
Fixpoint run (cs : list Call) (w : World) : World :=
  match cs with
  | [] => w
  | c :: rest => run rest (snd (step c w))
  end.

(** ** Reading a trace *)

Definition is_start_of (a : ref) (ev : Event) : bool :=
  match ev with
  | EvStart b _ => Nat.eqb a b
  | _ => false
  end.

Definition is_kill_of (a : ref) (ev : Event) : bool :=
  match ev with
  | EvKill b => Nat.eqb a b
  | _ => false
  end.

Definition starts_of (a : ref) (t : list Event) : nat :=
  length (List.filter (is_start_of a) t).

Definition kills_of (a : ref) (t : list Event) : nat :=
  length (List.filter (is_kill_of a) t).

(** ** Describing worlds and runs *)

Implicit Types (w : World) (a b : ref) (x : PeerAction) (k : KillFn)
  (m : gmap string nat) (t : list Event) (o : Outcome).

(** The counts after the function [k] has run on counts [m]. *)
Fixpoint kill_counts k m : gmap string nat :=
  match k with
  | OriginalKill => m
  | CountingKill peerId originalKill =>
      kill_counts originalKill
        match get_property m peerId with
        | Number 1 => delete peerId m
        | Number 2 => <[peerId := 1]> m
        | _ => m
        end
  end.

(** The events of the function [k] run on action [a] with counts [m]. *)
Fixpoint kill_events k a m : list Event :=
  match k with
  | OriginalKill => [EvKill a]
  | CountingKill peerId originalKill =>
      match get_property m peerId with
      | Number 1 => kill_events originalKill a (delete peerId m)
      | Number 2 => kill_events originalKill a (<[peerId := 1]> m)
      | count =>
          EvLog ErrorLevel ("Count had to be 1 or 2 - " ++ show_count count)
            :: kill_events originalKill a m
      end
  end.

Definition after_kill k a w : World :=
  set_trace (trace w ++ kill_events k a (_wifiReplicationCount w))
    (set_count (kill_counts k (_wifiReplicationCount w)) w).

(** The world after [a.start(arg)]. *)
Definition after_start a arg x (then_ : Reaction) w : Completion Value * World :=
  let w' := set_trace (trace w ++ [EvStart a arg]) w in
  match start_behaviour x with
  | ThrowsSynchronously e => (Throw (Thrown e), w')
  | ReturnsPromise =>
      (Normal VPromise, set_promises (promises w ++ [(a, then_)]) w')
  end.

(** The world after [_wifiEnqueue] has admitted the replication action [a]
    and set the count of its peer to [c]. *)
Definition after_admission (c : nat) a x w : Completion Value * World :=
  let peerId := getPeerIdentifier x in
  let x' := set_kill (CountingKill peerId (kill x)) x in
  after_start a (VAgent (new_ForeverAgent_SSL x)) x StartActionHandlers
    (set_heap (<[a := x']> (heap w))
       (set_count (<[peerId := c]> (_wifiReplicationCount w)) w)).

(** An action is in flight when a promise of its [start] is pending and its
    own [kill] has not run. *)
Definition in_flight a w : bool :=
  existsb (fun p => Nat.eqb a (fst p)) (promises w)
  && Nat.eqb (kills_of a (trace w)) 0.

Definition is_resolve (ev : Event) : bool :=
  match ev with
  | EvResolve _ => true
  | _ => false
  end.

(** No promise carries the handlers of the closure of [enqueue], and
    [resolve] has not been called. *)
Definition closure_never_continued w : Prop :=
  Forall (fun p => snd p = StartActionHandlers) (promises w) /\
  Forall (fun ev => is_resolve ev = false) (trace w).

Definition is_log_or_thrown (ev : Event) : bool :=
  match ev with
  | EvLog _ _ | EvThrown _ => true
  | _ => false
  end.

(** The calls of the public interface, with what the event loop does. *)
Definition public (c : Call) : bool :=
  match c with
  | call_start | call_stop | call_enqueue _ | settles _ _ | lane_turn => true
  | _ => false
  end.

(** No promise is pending, and nothing but log lines and thrown exceptions
    has happened. *)
Definition idle w : Prop :=
  promises w = [] /\ Forall (fun ev => is_log_or_thrown ev = true) (trace w).

(** The mediums on which everything may run in parallel: all but Bluetooth. *)
Definition unconstrained_parallel (c : ConnectionType) : bool :=
  match c with
  | BLUETOOTH => false
  | _ => true
  end.

(** The routing in the specification's words: [enqueue] sends the actions of
    an unconstrained medium through the replication counter, which starts
    them at once, and queues the others on the serial lane. *)
Definition routed_by_medium a x w : Prop :=
  let w' := snd (enqueue a w) in
  if unconstrained_parallel (getConnectionType x) then
    _wifiReplicationCount w' = _wifiReplicationCount (snd (_wifiEnqueue a w)) /\
    trace w' = trace (snd (_wifiEnqueue a w))
  else
    queued (_serialPromiseQueue w') = queued (_serialPromiseQueue w) ++ [a].

(** Every count the map holds is 1 or 2. *)
Definition counts_are_one_or_two w : Prop :=
  map_Forall (fun _ n => n = 1 \/ n = 2) (_wifiReplicationCount w).

(** The line that the [default] branch of line 129 logs. *)
Definition is_illegal_count_log (ev : Event) : bool :=
  match ev with
  | EvLog ErrorLevel msg => String.prefix "We got an illegal count: " msg
  | _ => false
  end.

(** All the wrappers of a [kill] function close over the peer [peerId]. *)
Fixpoint wrappers_of (peerId : string) k : bool :=
  match k with
  | OriginalKill => true
  | CountingKill p originalKill =>
      String.eqb p peerId && wrappers_of peerId originalKill
  end.

(** Every action of the heap carries wrappers of its own peer only. *)
Definition wrapped_for_own_peer w : Prop :=
  map_Forall (fun _ x => wrappers_of (getPeerIdentifier x) (kill x) = true)
    (heap w).

(** The counts that take the [default] branch of line 128. *)
Definition is_illegal_count (count : Property) : bool :=
  match count with
  | Number (S (S (S _))) | Inherited _ => true
  | _ => false
  end.

(** The world after the [kill] of each action of a list has been called. *)
Definition kill_all (ks : list ref) w : World :=
  run (map call_kill ks) w.

(** What a method of the base class is assumed to do in some theorems:
    change fields of the base class and call [kill] on actions, as the
    comment of lines 216 to 221 says of [stop]. *)
Definition only_kills w w' : Prop :=
  exists sf ks, w' = set_super sf (kill_all ks w).

Definition base_kills_only : Prop :=
  (forall a w, only_kills w (snd (super_enqueue a w))) /\
  (forall w, only_kills w (snd (super_start w))) /\
  (forall w, only_kills w (snd (super_stop w))).

(** The stronger assumption: the base class changes its own fields only. *)
Definition keeps_to_itself w w' : Prop :=
  exists sf, w' = set_super sf w.

Definition base_keeps_to_itself : Prop :=
  (forall a w, keeps_to_itself w (snd (super_enqueue a w))) /\
  (forall w, keeps_to_itself w (snd (super_start w))) /\
  (forall w, keeps_to_itself w (snd (super_stop w))).

(** The claim that [stop] on a stopped pool does nothing, in the
    specification's words. *)
Definition stop_is_a_no_op w : Prop :=
  _stopped w = true -> snd (stop w) = w.

End Pool.

(** ** A concrete configuration, to run the pool on *)

Definition example_config : ThaliConfig :=
  {| TCP_TIMEOUT_WIFI := 15000; SUPPORTED_PSK_CIPHERS := "PSK-AES256-CBC-SHA" |}.

Definition example_replication : ThaliReplicationPeerAction :=
  {| actionType := "ReplicationAction" |}.

(** A base class without fields whose methods return [null]. *)
Definition example_interface : ThaliPeerPoolInterface :=
  {| base := unit;
     super_ := tt;
     super_enqueue := fun _ w => (inl VNull, w);
     super_start := fun w => (inl VNull, w);
     super_stop := fun w => (inl VNull, w) |}.

(** The properties of [Object.prototype] in Node.js. *)
Definition example_prototype : ObjectPrototype :=
  {| inherited :=
       [ "constructor"; "__defineGetter__"; "__defineSetter__";
         "hasOwnProperty"; "__lookupGetter__"; "__lookupSetter__";
         "isPrototypeOf"; "propertyIsEnumerable"; "toString"; "valueOf";
         "__proto__"; "toLocaleString" ];
     inherited_text := fun name =>
       if String.eqb name "__proto__" then "[object Object]"
       else if String.eqb name "constructor"
       then "function Object() { [native code] }"
       else "function " +:+ name +:+ "() { [native code] }" |}.

Definition releasing_lane : PromiseQueueModel := {| releases_on_throw := true |}.
Definition holding_lane : PromiseQueueModel := {| releases_on_throw := false |}.

Definition replication_action (id peer : string) : PeerAction :=
  {| getId := id; getPeerIdentifier := peer;
     getActionType := "ReplicationAction"; getConnectionType := TCP_NATIVE;
     getPskIdentity := "identity"; getPskKey := "key";
     start_behaviour := ReturnsPromise; kill := OriginalKill |}.

Definition notification_action (id peer : string) : PeerAction :=
  {| getId := id; getPeerIdentifier := peer;
     getActionType := "GetRequestBeacon"; getConnectionType := TCP_NATIVE;
     getPskIdentity := "identity"; getPskKey := "key";
     start_behaviour := ReturnsPromise; kill := OriginalKill |}.

Definition example_heap : gmap ref PeerAction :=
  <[1 := replication_action "a1" "p1"]>
  (<[2 := replication_action "a2" "p1"]>
  (<[3 := replication_action "a3" "p1"]>
  (<[4 := notification_action "n4" "p1"]> ∅))).

Definition example_pool : PoolWorld (@base example_interface) :=
  ThaliPeerPoolOneAtATime (interface := example_interface) example_heap.

Definition example_running : PoolWorld (@base example_interface) :=
  snd (start example_pool).


(** A replication action of a second peer whose [start] throws at once. *)
Definition throwing_action (id peer : string) : PeerAction :=
  {| getId := id; getPeerIdentifier := peer;
     getActionType := "ReplicationAction"; getConnectionType := TCP_NATIVE;
     getPskIdentity := "identity"; getPskKey := "key";
     start_behaviour := ThrowsSynchronously "boom"; kill := OriginalKill |}.

Definition second_heap : gmap ref PeerAction :=
  <[5 := throwing_action "a5" "p2"]> example_heap.

Definition second_running : PoolWorld (@base example_interface) :=
  snd (start (ThaliPeerPoolOneAtATime (interface := example_interface) second_heap)).

(** Three replication actions of a peer called [constructor]. *)
Definition constructor_heap : gmap ref PeerAction :=
  <[6 := replication_action "c6" "constructor"]>
  (<[7 := replication_action "c7" "constructor"]>
  (<[8 := replication_action "c8" "constructor"]> ∅)).

Definition constructor_running : PoolWorld (@base example_interface) :=
  snd (start (ThaliPeerPoolOneAtATime (interface := example_interface)
                constructor_heap)).

(** A pool that was never started and that [_wifiEnqueue] has left a count
    in. *)
Definition stopped_with_a_count : PoolWorld (@base example_interface) :=
  snd (_wifiEnqueue (config := example_config)
         (replication := example_replication) (prototype := example_prototype)
         1 example_pool).

Section Properties.

Context {config : ThaliConfig} {replication : ThaliReplicationPeerAction}
        {interface : ThaliPeerPoolInterface} {lane : PromiseQueueModel}
        {prototype : ObjectPrototype}.

Implicit Types (w : World) (a b : ref) (x : PeerAction) (k : KillFn)
  (m : gmap string nat) (t : list Event) (o : Outcome).

(** ** Reading the count map *)

Lemma get_property_own m key n :
  m !! key = Some n -> get_property m key = Number n.
Proof. unfold get_property. now intros ->. Qed.

Lemma get_property_absent m key :
  m !! key = None -> key ∉ inherited -> get_property m key = Undefined.
Proof.
  unfold get_property. intros -> N. now rewrite bool_decide_eq_false_2.
Qed.

Lemma get_property_inherited m key :
  m !! key = None -> key ∈ inherited -> get_property m key = Inherited key.
Proof.
  unfold get_property. intros -> N. now rewrite bool_decide_eq_true_2.
Qed.

Lemma get_property_number m key n :
  get_property m key = Number n -> m !! key = Some n.
Proof.
  unfold get_property. destruct (m !! key); [congruence|].
  now destruct (bool_decide (key ∈ inherited)).
Qed.

Lemma get_property_no_number m key :
  (forall n, get_property m key <> Number n) -> m !! key = None.
Proof.
  unfold get_property. destruct (m !! key) as [n|]; [|reflexivity].
  intros N. now destruct (N n).
Qed.

(** ** What a call into an action leaves behind *)

Lemma apply_kill_eq k a w :
  apply_kill k a w = (Normal VNull, after_kill k a w).
Proof.
  revert w. induction k as [|peerId k IH]; intros [st q m sf h ps t].
  - reflexivity.
  - cbn [apply_kill]. unfold bind, gets, modify, logger_error, emit.
    cbn [_wifiReplicationCount].
    destruct (get_property m peerId) as [|[|[|[|n]]]|name] eqn:E; cbn;
      rewrite IH; unfold after_kill; cbn; rewrite ?E; cbn;
      rewrite <- ?app_assoc; reflexivity.
Qed.

Lemma invoke_kill_eq a x w :
  heap w !! a = Some x ->
  invoke_kill a w = (Normal VNull, after_kill (kill x) a w).
Proof.
  intros H. unfold invoke_kill, bind, deref. rewrite H. apply apply_kill_eq.
Qed.

Lemma invoke_kill_miss a w :
  heap w !! a = None ->
  invoke_kill a w = (Throw (TypeError "not a peer action"), w).
Proof. intros H. unfold invoke_kill, bind, deref. now rewrite H. Qed.

Lemma invoke_start_eq a arg x then_ w :
  heap w !! a = Some x ->
  invoke_start a arg then_ w = after_start a arg x then_ w.
Proof.
  intros H. unfold invoke_start, after_start, bind, deref, emit, modify.
  rewrite H. cbn. destruct (start_behaviour x); reflexivity.
Qed.

Lemma _startAction_eq a x w :
  heap w !! a = Some x ->
  _startAction a w =
  after_start a (VAgent (new_ForeverAgent_SSL x)) x StartActionHandlers w.
Proof.
  intros H. unfold _startAction, bind, deref. rewrite H.
  unfold peerAction_start_actionAgent, bind, identifier. cbn.
  now apply invoke_start_eq.
Qed.

(** The closure of [enqueue] fails on its second line, whatever the world
    it runs in. *)
Lemma serial_closure_eq a x w :
  heap w !! a = Some x ->
  serial_closure a w =
  (Throw (ReferenceError "actionAgent"),
   set_trace (trace w ++ [EvLog Debug (getId x ++ " - Peer Action Started")]) w).
Proof.
  intros H. unfold serial_closure, bind, deref. rewrite H.
  unfold logger_debug, emit, modify. cbn. reflexivity.
Qed.

Ltac wifi_cases H Ht :=
  unfold _wifiEnqueue, bind, deref; cbn [heap]; rewrite H, Ht, String.eqb_refl;
  cbn [negb]; unfold gets, modify; cbn [_wifiReplicationCount].

Ltac wrapped_start a x H :=
  cbn; rewrite H; cbn;
  rewrite (_startAction_eq a (set_kill (CountingKill (getPeerIdentifier x) (kill x)) x));
  [reflexivity | cbn; apply lookup_insert_eq].

Lemma _wifiEnqueue_first a x w :
  heap w !! a = Some x ->
  getActionType x = actionType ->
  get_property (_wifiReplicationCount w) (getPeerIdentifier x) = Undefined \/
  get_property (_wifiReplicationCount w) (getPeerIdentifier x) = Number 0 ->
  _wifiEnqueue a w = after_admission 1 a x w.
Proof.
  destruct w as [st q m sf h ps t]. cbn. intros H Ht Hc.
  wifi_cases H Ht.
  destruct Hc as [-> | ->]; wrapped_start a x H.
Qed.

Lemma _wifiEnqueue_second a x w :
  heap w !! a = Some x ->
  getActionType x = actionType ->
  get_property (_wifiReplicationCount w) (getPeerIdentifier x) = Number 1 ->
  _wifiEnqueue a w = after_admission 2 a x w.
Proof.
  destruct w as [st q m sf h ps t]. cbn. intros H Ht Hc.
  wifi_cases H Ht. rewrite Hc. wrapped_start a x H.
Qed.

Lemma _wifiEnqueue_third a x w :
  heap w !! a = Some x ->
  getActionType x = actionType ->
  get_property (_wifiReplicationCount w) (getPeerIdentifier x) = Number 2 ->
  _wifiEnqueue a w = (Normal VNull, after_kill (kill x) a w).
Proof.
  destruct w as [st q m sf h ps t]. cbn. intros H Ht Hc.
  wifi_cases H Ht. rewrite Hc. now apply invoke_kill_eq.
Qed.

(** The [default] branch: an error line, and the action is wrapped and
    started all the same, with no count written. *)
Lemma _wifiEnqueue_illegal a x w count :
  heap w !! a = Some x ->
  getActionType x = actionType ->
  get_property (_wifiReplicationCount w) (getPeerIdentifier x) = count ->
  is_illegal_count count = true ->
  _wifiEnqueue a w =
  after_start a (VAgent (new_ForeverAgent_SSL x)) x StartActionHandlers
    (set_heap (<[a := set_kill (CountingKill (getPeerIdentifier x) (kill x)) x]> (heap w))
       (set_trace
          (trace w ++ [EvLog ErrorLevel
                         ("We got an illegal count: " ++ show_count count)]) w)).
Proof.
  destruct w as [st q m sf h ps t]. cbn. intros H Ht Hc I.
  wifi_cases H Ht. rewrite Hc. unfold logger_error, emit, modify.
  destruct count as [|[|[|[|n]]]|name]; try discriminate; wrapped_start a x H.
Qed.

Lemma _wifiEnqueue_other a x w :
  heap w !! a = Some x ->
  getActionType x <> actionType ->
  _wifiEnqueue a w =
  after_start a (VAgent (new_ForeverAgent_SSL x)) x StartActionHandlers w.
Proof.
  intros H Ht. unfold _wifiEnqueue, bind, deref. rewrite H.
  apply String.eqb_neq in Ht. rewrite Ht. cbn. now apply _startAction_eq.
Qed.

Lemma _wifiEnqueue_miss a w :
  heap w !! a = None ->
  _wifiEnqueue a w = (Throw (TypeError "not a peer action"), w).
Proof. intros H. unfold _wifiEnqueue, bind, deref. now rewrite H. Qed.

(** Every way through [_wifiEnqueue]. *)
Ltac wifi_split a w :=
  let x := fresh "x" in
  let n := fresh "n" in
  let name := fresh "name" in
  let Hh := fresh "Hh" in
  let Ht := fresh "Ht" in
  let Hc := fresh "Hc" in
  destruct (heap w !! a) as [x|] eqn:Hh;
  [ destruct (decide (getActionType x = actionType)) as [Ht|Ht];
    [ destruct (get_property (_wifiReplicationCount w) (getPeerIdentifier x))
        as [|[|[|[|n]]]|name] eqn:Hc;
      [ rewrite (_wifiEnqueue_first a x w) by auto
      | rewrite (_wifiEnqueue_first a x w) by auto
      | rewrite (_wifiEnqueue_second a x w) by auto
      | rewrite (_wifiEnqueue_third a x w) by auto
      | rewrite (_wifiEnqueue_illegal a x w _ Hh Ht Hc eq_refl)
      | rewrite (_wifiEnqueue_illegal a x w _ Hh Ht Hc eq_refl) ]
    | rewrite (_wifiEnqueue_other a x w) by auto ]
  | rewrite (_wifiEnqueue_miss a w) by auto ].

Ltac world_simpl :=
  unfold set_heap, set_count, set_trace, set_promises, set_queue, set_super,
    set_stopped;
  cbn [snd fst _stopped _serialPromiseQueue _wifiReplicationCount
       super_fields heap promises trace].

(** ** Counting events *)

Lemma starts_of_app a t t' :
  starts_of a (t ++ t') = starts_of a t + starts_of a t'.
Proof. unfold starts_of. now rewrite List.filter_app, length_app. Qed.

Lemma kills_of_app a t t' :
  kills_of a (t ++ t') = kills_of a t + kills_of a t'.
Proof. unfold kills_of. now rewrite List.filter_app, length_app. Qed.

Lemma kill_events_no_start k a m b arg :
  EvStart b arg ∉ kill_events k a m.
Proof.
  revert m. induction k as [|peerId k IH]; intros m; cbn.
  - intros H. apply list_elem_of_singleton in H. discriminate.
  - destruct (get_property m peerId) as [|[|[|[|n]]]|name]; try apply IH;
      (intros H; apply elem_of_cons in H as [H|H]; [discriminate | now apply IH in H]).
Qed.

Lemma kills_of_kill_events k a m b :
  kills_of b (kill_events k a m) = if Nat.eqb b a then 1 else 0.
Proof.
  revert m. induction k as [|peerId k IH]; intros m; cbn.
  - unfold kills_of. cbn. now destruct (Nat.eqb b a).
  - destruct (get_property m peerId) as [|[|[|[|n]]]|name]; try apply IH;
      (match goal with |- context [EvLog ?l ?s :: ?r] =>
         change (EvLog l s :: r) with ([EvLog l s] ++ r) end;
       rewrite kills_of_app, IH; reflexivity).
Qed.

Lemma starts_of_kill_events k a m b :
  starts_of b (kill_events k a m) = 0.
Proof.
  revert m. induction k as [|peerId k IH]; intros m; cbn.
  - reflexivity.
  - destruct (get_property m peerId) as [|[|[|[|n]]]|name]; try apply IH;
      (match goal with |- context [EvLog ?l ?s :: ?r] =>
         change (EvLog l s :: r) with ([EvLog l s] ++ r) end;
       rewrite starts_of_app, IH; reflexivity).
Qed.

(** ** The replication counter *)

(** Three distinct replication actions of one peer whose identifier names
    no inherited property, handed to [_wifiEnqueue] one after the other
    while the peer has no count (or count 0): the first is started and the
    count becomes 1, the second is started and the count becomes 2, the
    third gets its [kill] called, returns at once and is never started, and
    the count stays 2. *)
Lemma third_replication_is_killed a1 a2 a3 x1 x2 x3 peerId w :
  peerId ∉ inherited ->
  heap w !! a1 = Some x1 -> heap w !! a2 = Some x2 -> heap w !! a3 = Some x3 ->
  a1 <> a2 -> a3 <> a1 -> a3 <> a2 ->
  getActionType x1 = actionType ->
  getActionType x2 = actionType ->
  getActionType x3 = actionType ->
  getPeerIdentifier x1 = peerId ->
  getPeerIdentifier x2 = peerId ->
  getPeerIdentifier x3 = peerId ->
  kill x3 = OriginalKill ->
  _wifiReplicationCount w !! peerId = None \/
  _wifiReplicationCount w !! peerId = Some 0 ->
  let w1 := snd (_wifiEnqueue a1 w) in
  let w2 := snd (_wifiEnqueue a2 w1) in
  let w3 := snd (_wifiEnqueue a3 w2) in
  (_wifiReplicationCount w1 !! peerId = Some 1 /\
   trace w1 = trace w ++ [EvStart a1 (VAgent (new_ForeverAgent_SSL x1))]) /\
  (_wifiReplicationCount w2 !! peerId = Some 2 /\
   trace w2 = trace w1 ++ [EvStart a2 (VAgent (new_ForeverAgent_SSL x2))]) /\
  (fst (_wifiEnqueue a3 w2) = Normal VNull /\
   trace w3 = trace w2 ++ [EvKill a3] /\
   starts_of a3 (trace w3) = starts_of a3 (trace w) /\
   promises w3 = promises w2 /\
   _wifiReplicationCount w3 !! peerId = Some 2).
Proof.
  intros NI H1 H2 H3 N12 N31 N32 T1 T2 T3 P1 P2 P3 K3 Hc w1 w2 w3.
  assert (E1 : _wifiEnqueue a1 w = after_admission 1 a1 x1 w).
  { apply _wifiEnqueue_first; rewrite ?P1; auto.
    destruct Hc as [Hc|Hc];
      [left; now apply get_property_absent | right; now apply get_property_own]. }
  assert (C1 : _wifiReplicationCount w1 !! peerId = Some 1).
  { subst w1. rewrite E1. unfold after_admission, after_start. rewrite P1.
    destruct (start_behaviour x1); cbn; apply lookup_insert_eq. }
  assert (Q1 : trace w1 = trace w ++ [EvStart a1 (VAgent (new_ForeverAgent_SSL x1))]).
  { subst w1. rewrite E1. unfold after_admission, after_start.
    destruct (start_behaviour x1); reflexivity. }
  assert (L2 : heap w1 !! a2 = Some x2).
  { subst w1. rewrite E1. unfold after_admission, after_start.
    destruct (start_behaviour x1); cbn; rewrite lookup_insert_ne; auto. }
  assert (L3 : heap w1 !! a3 = Some x3).
  { subst w1. rewrite E1. unfold after_admission, after_start.
    destruct (start_behaviour x1); cbn; rewrite lookup_insert_ne; auto. }
  assert (E2 : _wifiEnqueue a2 w1 = after_admission 2 a2 x2 w1)
    by (apply _wifiEnqueue_second; rewrite ?P2; auto using get_property_own).
  assert (C2 : _wifiReplicationCount w2 !! peerId = Some 2).
  { subst w2. rewrite E2. unfold after_admission, after_start. rewrite P2.
    destruct (start_behaviour x2); cbn; apply lookup_insert_eq. }
  assert (Q2 : trace w2 = trace w1 ++ [EvStart a2 (VAgent (new_ForeverAgent_SSL x2))]).
  { subst w2. rewrite E2. unfold after_admission, after_start.
    destruct (start_behaviour x2); reflexivity. }
  assert (L3' : heap w2 !! a3 = Some x3).
  { subst w2. rewrite E2. unfold after_admission, after_start.
    destruct (start_behaviour x2); cbn; rewrite lookup_insert_ne; auto. }
  assert (E3 : _wifiEnqueue a3 w2 = (Normal VNull, after_kill (kill x3) a3 w2))
    by (apply _wifiEnqueue_third; rewrite ?P3; auto using get_property_own).
  assert (Q3 : trace w3 = trace w2 ++ [EvKill a3])
    by (subst w3; rewrite E3, K3; reflexivity).
  repeat split; auto.
  - now rewrite E3.
  - rewrite Q3, Q2, Q1, !starts_of_app. unfold starts_of at 2 3 4. cbn.
    apply Nat.eqb_neq in N31, N32. rewrite N31, N32. cbn. lia.
  - subst w3. rewrite E3. reflexivity.
  - subst w3. rewrite E3, K3. exact C2.
Qed.

(** C2.  A peer whose identifier names a property that the count map
    inherits from [Object.prototype], such as [constructor], is not capped.
    Three distinct replication actions of that peer, handed to
    [_wifiEnqueue] one after the other: each time the read of line 114 gives
    the inherited value, the [default] branch logs the illegal count, and the
    action is started.  All three are started, none is killed, and no count
    is stored. *)
Theorem prototype_named_peer_is_not_capped a1 a2 a3 x1 x2 x3 peerId w :
  peerId ∈ inherited ->
  heap w !! a1 = Some x1 -> heap w !! a2 = Some x2 -> heap w !! a3 = Some x3 ->
  a1 <> a2 -> a3 <> a1 -> a3 <> a2 ->
  getActionType x1 = actionType ->
  getActionType x2 = actionType ->
  getActionType x3 = actionType ->
  getPeerIdentifier x1 = peerId ->
  getPeerIdentifier x2 = peerId ->
  getPeerIdentifier x3 = peerId ->
  _wifiReplicationCount w !! peerId = None ->
  let w3 := run [call_wifiEnqueue a1; call_wifiEnqueue a2; call_wifiEnqueue a3] w in
  let illegal :=
    EvLog ErrorLevel ("We got an illegal count: " ++ inherited_text peerId) in
  trace w3 =
  trace w ++ [illegal; EvStart a1 (VAgent (new_ForeverAgent_SSL x1));
              illegal; EvStart a2 (VAgent (new_ForeverAgent_SSL x2));
              illegal; EvStart a3 (VAgent (new_ForeverAgent_SSL x3))] /\
  _wifiReplicationCount w3 = _wifiReplicationCount w /\
  starts_of a3 (trace w3) = S (starts_of a3 (trace w)) /\
  kills_of a3 (trace w3) = kills_of a3 (trace w).
Proof.
  intros I H1 H2 H3 N12 N31 N32 T1 T2 T3 P1 P2 P3 Hc. cbn [run step].
  destruct w as [st q m sf h ps t].
  cbn [heap _wifiReplicationCount trace] in *.
  assert (G : get_property m peerId = Inherited peerId)
    by now apply get_property_inherited.
  rewrite (_wifiEnqueue_illegal a1 x1 (mkWorld st q m sf h ps t) (Inherited peerId))
    by (cbn; rewrite ?P1; auto).
  unfold after_start. destruct (start_behaviour x1); world_simpl.
  all: match goal with
       | |- context [_wifiEnqueue ?b ?W] =>
           rewrite (_wifiEnqueue_illegal b x2 W (Inherited peerId))
             by (cbn; rewrite ?P2, ?lookup_insert_ne; auto)
       end.
  all: unfold after_start; destruct (start_behaviour x2); world_simpl.
  all: match goal with
       | |- context [_wifiEnqueue ?b ?W] =>
           rewrite (_wifiEnqueue_illegal b x3 W (Inherited peerId))
             by (cbn; rewrite ?P3, ?lookup_insert_ne; auto)
       end.
  all: unfold after_start; destruct (start_behaviour x3); world_simpl.
  all: cbn [show_count]; rewrite <- !app_assoc; cbn [app].
  all: split; [reflexivity|]; split; [reflexivity|].
  all: rewrite !starts_of_app, !kills_of_app; unfold starts_of, kills_of; cbn;
    apply Nat.eqb_neq in N31, N32; rewrite N31, N32, Nat.eqb_refl; cbn; lia.
Qed.

(** Whenever [_wifiEnqueue] admits a replication action, the action's [kill]
    is the wrapper around the [kill] it had. *)
Lemma admitted_kill_is_wrapped a x w :
  heap w !! a = Some x ->
  getActionType x = actionType ->
  _wifiReplicationCount w !! getPeerIdentifier x <> Some 2 ->
  heap (snd (_wifiEnqueue a w)) !! a =
  Some (set_kill (CountingKill (getPeerIdentifier x) (kill x)) x).
Proof.
  intros H Ht Hc.
  assert (Hn : get_property (_wifiReplicationCount w) (getPeerIdentifier x) <> Number 2).
  { intros E. now apply get_property_number in E. }
  wifi_split a w; try congruence;
    match goal with Hx : Some _ = Some x |- _ => inversion Hx; subst end;
    unfold after_admission, after_start;
    destruct (start_behaviour x); cbn; apply lookup_insert_eq.
Qed.

(** C3.  After [_wifiEnqueue] has admitted a replication action, the action's
    [kill] is a wrapper around the [kill] it had.  Called while the peer's
    count is 1 the wrapper deletes the count, called while it is 2 it sets it
    to 1, and in both cases it then runs the original [kill] on the action,
    so the action's own teardown runs once more. *)
Theorem kill_wrapper_decrements_and_delegates a x w :
  heap w !! a = Some x ->
  getActionType x = actionType ->
  _wifiReplicationCount w !! getPeerIdentifier x <> Some 2 ->
  let peerId := getPeerIdentifier x in
  exists x',
    heap (snd (_wifiEnqueue a w)) !! a = Some x' /\
    kill x' = CountingKill peerId (kill x) /\
    forall w', heap w' !! a = Some x' ->
      (_wifiReplicationCount w' !! peerId = Some 1 ->
       invoke_kill a w' =
       apply_kill (kill x) a
         (set_count (delete peerId (_wifiReplicationCount w')) w')) /\
      (_wifiReplicationCount w' !! peerId = Some 2 ->
       invoke_kill a w' =
       apply_kill (kill x) a
         (set_count (<[peerId := 1]> (_wifiReplicationCount w')) w')) /\
      (kill x = OriginalKill ->
       _wifiReplicationCount w' !! peerId = Some 1 ->
       _wifiReplicationCount (snd (invoke_kill a w')) !! peerId = None) /\
      (kill x = OriginalKill ->
       _wifiReplicationCount w' !! peerId = Some 2 ->
       _wifiReplicationCount (snd (invoke_kill a w')) !! peerId = Some 1) /\
      kills_of a (trace (snd (invoke_kill a w'))) = S (kills_of a (trace w')).
Proof.
  intros H Ht Hc peerId.
  exists (set_kill (CountingKill peerId (kill x)) x).
  split; [now apply admitted_kill_is_wrapped|]. split; [reflexivity|].
  intros w' H'.
  assert (E1 : _wifiReplicationCount w' !! peerId = Some 1 ->
    invoke_kill a w' =
    apply_kill (kill x) a (set_count (delete peerId (_wifiReplicationCount w')) w')).
  { intros C. unfold invoke_kill, bind, deref. rewrite H'. cbn.
    unfold bind, gets. now rewrite (get_property_own _ _ _ C). }
  assert (E2 : _wifiReplicationCount w' !! peerId = Some 2 ->
    invoke_kill a w' =
    apply_kill (kill x) a (set_count (<[peerId := 1]> (_wifiReplicationCount w')) w')).
  { intros C. unfold invoke_kill, bind, deref. rewrite H'. cbn.
    unfold bind, gets. now rewrite (get_property_own _ _ _ C). }
  repeat split; auto.
  - intros K C. rewrite (E1 C), K. cbn. apply lookup_delete_eq.
  - intros K C. rewrite (E2 C), K. cbn. apply lookup_insert_eq.
  - rewrite (invoke_kill_eq a _ w' H'). unfold after_kill.
    cbn [snd set_trace trace].
    now rewrite kills_of_app, kills_of_kill_events, Nat.eqb_refl, Nat.add_1_r.
Qed.

(** Reading a key that was just written, or just deleted. *)
Lemma get_property_insert m key n :
  get_property (<[key := n]> m) key = Number n.
Proof. apply get_property_own, lookup_insert_eq. Qed.

Lemma get_property_delete m key :
  key ∉ inherited -> get_property (delete key m) key = Undefined.
Proof. intros N. apply get_property_absent; [apply lookup_delete_eq | exact N]. Qed.

Ltac second_admission a x P :=
  match goal with
  | |- context [_wifiEnqueue a ?W] =>
      rewrite (_wifiEnqueue_second a x W)
        by (world_simpl;
            rewrite ?P, ?get_property_insert, ?lookup_insert_ne; auto)
  end.

Ltac kill_call a x :=
  match goal with
  | |- context [invoke_kill a ?W] =>
      rewrite (invoke_kill_eq a x W)
        by (world_simpl; simplify_map_eq; auto)
  end;
  unfold after_kill; world_simpl.

(** C9.  The wrapper decrements at every call.  With two replication actions
    of one peer admitted (count 2; the peer's identifier names no inherited
    property, or no count would be stored), calling the first action's [kill] twice
    takes the count to 1 and then to absent, while the second action is
    still in flight; a third call finds no count, logs an error and runs the
    original [kill]. *)
Theorem kill_wrapper_decrements_at_every_call a1 a2 x1 x2 peerId w :
  peerId ∉ inherited ->
  heap w !! a1 = Some x1 -> heap w !! a2 = Some x2 -> a1 <> a2 ->
  getActionType x1 = actionType ->
  getActionType x2 = actionType ->
  getPeerIdentifier x1 = peerId ->
  getPeerIdentifier x2 = peerId ->
  kill x1 = OriginalKill ->
  start_behaviour x2 = ReturnsPromise ->
  kills_of a2 (trace w) = 0 ->
  _wifiReplicationCount w !! peerId = None ->
  let admitted := run [call_wifiEnqueue a1; call_wifiEnqueue a2] w in
  let killed := run [call_kill a1] admitted in
  let killed_twice := run [call_kill a1] killed in
  let killed_thrice := run [call_kill a1] killed_twice in
  _wifiReplicationCount admitted !! peerId = Some 2 /\
  _wifiReplicationCount killed !! peerId = Some 1 /\
  _wifiReplicationCount killed_twice !! peerId = None /\
  in_flight a2 killed_twice = true /\
  _wifiReplicationCount killed_thrice !! peerId = None /\
  trace killed_thrice =
  trace killed_twice ++
  [EvLog ErrorLevel "Count had to be 1 or 2 - undefined"; EvKill a1].
Proof.
  intros NI H1 H2 N T1 T2 P1 P2 K1 S2 Z Hc. cbn [run step].
  rewrite (_wifiEnqueue_first a1 x1 w)
    by (rewrite ?P1; auto using get_property_absent).
  unfold after_admission. rewrite P1, K1.
  destruct w as [st q m sf h ps t]. cbn [heap trace _wifiReplicationCount] in H1, H2, Z, Hc.
  set (x1' := set_kill (CountingKill peerId OriginalKill) x1).
  assert (K1' : kill x1' = CountingKill peerId OriginalKill) by reflexivity.
  unfold after_start.
  destruct (start_behaviour x1) eqn:S1; world_simpl.
  all: second_admission a2 x2 P2;
    unfold after_admission, after_start; rewrite S2, P2; world_simpl.
  all: kill_call a1 x1'; rewrite K1'; cbn [kill_counts kill_events];
    rewrite !get_property_insert.
  all: kill_call a1 x1'; rewrite K1'; cbn [kill_counts kill_events];
    rewrite !insert_insert_eq, !get_property_insert.
  all: kill_call a1 x1'; rewrite K1'; cbn [kill_counts kill_events];
    rewrite !get_property_delete by exact NI.
  all: cbn [show_count].
  all: split; [apply lookup_insert_eq|]; split; [apply lookup_insert_eq|];
    split; [apply lookup_delete_eq|]; split;
    [|split; [apply lookup_delete_eq | reflexivity]].
  all: unfold in_flight; world_simpl;
    rewrite existsb_app; cbn [existsb fst]; rewrite Nat.eqb_refl, ?orb_true_r;
    cbn [andb]; rewrite !kills_of_app, Z; unfold kills_of; cbn;
    apply not_eq_sym, Nat.eqb_neq in N; rewrite N; reflexivity.
Qed.

(** ** The agent *)

Lemma trace_after_start a arg x then_ w :
  trace (snd (after_start a arg x then_ w)) = trace w ++ [EvStart a arg].
Proof. unfold after_start. now destruct (start_behaviour x). Qed.

(** C10.  Whatever [_wifiEnqueue] does with an action, every [start] it calls
    is a [start] of that action and is handed an agent built with keep-alive
    on, a keep-alive interval of half the configured TCP timeout, no limit on
    sockets, at most 256 free sockets, the supported PSK ciphers, and the PSK
    identity and key of the action; and it does call [start] unless the
    action is a replication action of a peer whose count is 2. *)
Theorem started_action_gets_its_agent a x w :
  heap w !! a = Some x ->
  let agent :=
    VAgent {| keepAlive := true;
              keepAliveMsecs := Num (TCP_TIMEOUT_WIFI / 2);
              maxSockets := Infinity;
              maxFreeSockets := Num 256;
              ciphers := SUPPORTED_PSK_CIPHERS;
              pskIdentity := getPskIdentity x;
              pskKey := getPskKey x |} in
  exists new,
    trace (snd (_wifiEnqueue a w)) = trace w ++ new /\
    (forall b arg, EvStart b arg ∈ new -> b = a /\ arg = agent) /\
    (getActionType x <> actionType \/
     _wifiReplicationCount w !! getPeerIdentifier x <> Some 2 ->
     EvStart a agent ∈ new).
Proof.
  intros H agent.
  assert (One : forall b arg,
    EvStart b arg ∈ [EvStart a agent] -> b = a /\ arg = agent).
  { intros b arg E. apply list_elem_of_singleton in E. now inversion E. }
  assert (Two : _wifiReplicationCount w !! getPeerIdentifier x <> Some 2 ->
    get_property (_wifiReplicationCount w) (getPeerIdentifier x) <> Number 2).
  { intros N E. now apply get_property_number in E. }
  wifi_split a w; try congruence;
    match goal with Hx : Some _ = Some x |- _ => inversion Hx; subst end.
  - exists [EvStart a agent]. unfold after_admission.
    rewrite trace_after_start.
    split; [reflexivity|]. split; [exact One|]. intros _. apply list_elem_of_here.
  - exists [EvStart a agent]. unfold after_admission.
    rewrite trace_after_start.
    split; [reflexivity|]. split; [exact One|]. intros _. apply list_elem_of_here.
  - exists [EvStart a agent]. unfold after_admission.
    rewrite trace_after_start.
    split; [reflexivity|]. split; [exact One|]. intros _. apply list_elem_of_here.
  - exists (kill_events (kill x) a (_wifiReplicationCount w)).
    split; [reflexivity|]. split.
    + intros b arg E. now apply kill_events_no_start in E.
    + intros [E|E]; [congruence|]. now destruct (Two E).
  - eexists (_ :: [EvStart a agent]).
    rewrite trace_after_start. cbn [set_heap set_trace trace].
    rewrite <- app_assoc. split; [reflexivity|]. split.
    + intros b arg E. apply elem_of_cons in E as [E|E]; [discriminate|auto].
    + intros _. apply list_elem_of_further, list_elem_of_here.
  - eexists (_ :: [EvStart a agent]).
    rewrite trace_after_start. cbn [set_heap set_trace trace].
    rewrite <- app_assoc. split; [reflexivity|]. split.
    + intros b arg E. apply elem_of_cons in E as [E|E]; [discriminate|auto].
    + intros _. apply list_elem_of_further, list_elem_of_here.
  - exists [EvStart a agent].
    rewrite trace_after_start.
    split; [reflexivity|]. split; [exact One|]. intros _. apply list_elem_of_here.
Qed.

(** ** The calls of the base class *)

Lemma start_eq w :
  start w = call_super super_start (set_stopped false w).
Proof. reflexivity. Qed.

Lemma stop_eq w :
  stop w = call_super super_stop (set_count ∅ (set_stopped true w)).
Proof. reflexivity. Qed.

Lemma snd_call_super method w :
  snd (call_super method w) = snd (method w).
Proof. unfold call_super. now destruct (method w) as [[v|e] w']. Qed.

Lemma enqueue_cases a w :
  snd (enqueue a w) = w \/
  snd (enqueue a w) = snd (super_enqueue a w) \/
  exists q, snd (enqueue a w) = set_queue q (snd (super_enqueue a w)).
Proof.
  unfold enqueue, bind, gets, call_super, PromiseQueue_enqueue, modify. cbn.
  destruct (_stopped w); [now left|]. right.
  destruct (super_enqueue a w) as [[v|e] w']; cbn; [right; eauto | now left].
Qed.

Lemma kill_counts_empty k : kill_counts k ∅ = ∅.
Proof.
  induction k as [|peerId k IH]; cbn; [reflexivity|].
  unfold get_property. rewrite lookup_empty.
  now destruct (bool_decide (peerId ∈ inherited)).
Qed.

Lemma kill_events_quiet k a m :
  Forall (fun ev => is_resolve ev = false) (kill_events k a m).
Proof.
  revert m. induction k as [|peerId k IH]; intros m; cbn.
  - now repeat constructor.
  - destruct (get_property m peerId) as [|[|[|[|n]]]|name]; auto; now constructor.
Qed.

Lemma invoke_kill_frame a w :
  exists m new,
    snd (invoke_kill a w) = set_trace (trace w ++ new) (set_count m w) /\
    (_wifiReplicationCount w = ∅ -> m = ∅) /\
    Forall (fun ev => is_resolve ev = false) new.
Proof.
  destruct (heap w !! a) as [x|] eqn:H.
  - rewrite (invoke_kill_eq a x w H). unfold after_kill. cbn [snd].
    eexists _, _. split; [reflexivity|]. split.
    + intros ->. apply kill_counts_empty.
    + apply kill_events_quiet.
  - exists (_wifiReplicationCount w), [].
    rewrite (invoke_kill_miss a w H). cbn [snd].
    split; [|split; auto]. destruct w; cbn. now rewrite app_nil_r.
Qed.

(** What holds before a method of the base class that only kills, and is
    kept by every [kill] and by every change of the base class's fields,
    holds after it. *)
Lemma only_kills_keeps (I : World -> Prop) :
  (forall a w, I w -> I (snd (invoke_kill a w))) ->
  (forall sf w, I w -> I (set_super sf w)) ->
  forall w w', only_kills w w' -> I w -> I w'.
Proof.
  intros Hk Hs w w' (sf & ks & ->) Iw. apply Hs. unfold kill_all.
  revert w Iw. induction ks as [|a ks IH]; intros w Iw; cbn [map run]; [exact Iw|].
  apply IH. cbn [step]. now apply Hk.
Qed.

Lemma keeps_to_itself_only_kills :
  base_keeps_to_itself -> base_kills_only.
Proof.
  intros (E & S & T).
  repeat split; intros; [destruct (E a w) as [sf ->] | destruct (S w) as [sf ->]
                        | destruct (T w) as [sf ->]]; now exists sf, [].
Qed.

(** Every call of the public methods keeps what every [kill] and every
    change of the pool's own fields and of the base class's fields keep. *)
Lemma public_call_keeps (I : World -> Prop) :
  base_kills_only ->
  (forall a w, I w -> I (snd (invoke_kill a w))) ->
  (forall sf w, I w -> I (set_super sf w)) ->
  (forall st w, I w -> I (set_stopped st w)) ->
  (forall w, I w -> I (set_count ∅ w)) ->
  (forall q w, I w -> I (set_queue q w)) ->
  forall w, I w ->
    I (snd (start w)) /\ I (snd (stop w)) /\ forall a, I (snd (enqueue a w)).
Proof.
  intros (E & S & T) Hk Hs Hst Hc Hq w Iw.
  rewrite start_eq, stop_eq, !snd_call_super. split; [|split].
  - eapply only_kills_keeps; eauto.
  - eapply only_kills_keeps; eauto.
  - intros a. destruct (enqueue_cases a w) as [-> | [-> | [q ->]]]; auto.
    + eapply only_kills_keeps; eauto.
    + apply Hq. eapply only_kills_keeps; eauto.
Qed.

(** ** Stopped and running *)

(** C4.  On a stopped pool, which a new pool is, [enqueue] throws the error
    'We are stopped' to its caller and leaves the world as it was: nothing is
    queued and no [start] is called.  Once [start] has been called on that
    pool, [enqueue] of the same action does not throw that error (the base
    class, called with the pool, is taken not to write [_stopped]). *)
Theorem enqueue_when_stopped_throws a h w :
  w = ThaliPeerPoolOneAtATime h \/ _stopped w = true ->
  enqueue a w = (Throw (Error ENQUEUE_WHEN_STOPPED), w) /\
  ENQUEUE_WHEN_STOPPED = "We are stopped" /\
  starts_of a (trace (snd (enqueue a w))) = starts_of a (trace w) /\
  (base_kills_only ->
   fst (enqueue a (snd (start w))) <> Throw (Error ENQUEUE_WHEN_STOPPED)).
Proof.
  intros Hs.
  assert (S : _stopped w = true) by (destruct Hs as [-> | Hs]; auto).
  assert (E : enqueue a w = (Throw (Error ENQUEUE_WHEN_STOPPED), w)).
  { unfold enqueue, bind, gets. now rewrite S. }
  split; [exact E|]. split; [reflexivity|]. split; [now rewrite E|].
  intros B.
  assert (R : _stopped (snd (start w)) = false).
  { rewrite start_eq, snd_call_super. destruct B as (_ & St & _).
    apply (only_kills_keeps (fun w' => _stopped w' = false))
      with (w := set_stopped false w); auto.
    intros b w' Hw. destruct (invoke_kill_frame b w') as (m & new & -> & _).
    exact Hw. }
  unfold enqueue, bind, gets, call_super. rewrite R.
  destruct (super_enqueue a (snd (start w))) as [[v|e] w']; cbn; discriminate.
Qed.

(** ** What the calls and the event loop change *)

Lemma _wifiEnqueue_frame a w :
  exists m h ps new,
    snd (_wifiEnqueue a w) =
    mkWorld (_stopped w) (_serialPromiseQueue w) m (super_fields w) h
      (promises w ++ ps) (trace w ++ new) /\
    Forall (fun p => snd p = StartActionHandlers) ps /\
    Forall (fun ev => is_resolve ev = false) new.
Proof.
  destruct w as [st q m sf h ps t].
  wifi_split a (mkWorld st q m sf h ps t);
    unfold after_admission, after_start, after_kill;
    try destruct (start_behaviour x); world_simpl.
  all: try (eexists _, _, [_], [_]; split; [reflexivity|];
            split; repeat constructor).
  all: try (eexists _, _, [], [_]; rewrite app_nil_r; split; [reflexivity|];
            split; repeat constructor).
  all: try (eexists _, _, [], _; rewrite app_nil_r; split; [reflexivity|];
            split; [constructor | apply kill_events_quiet]).
  all: try (eexists _, _, [], [_; _]; rewrite app_nil_r, <- app_assoc;
            split; [reflexivity|]; split; repeat constructor).
  all: try (eexists _, _, [_], [_; _]; rewrite <- app_assoc;
            split; [reflexivity|]; split; repeat constructor).
  eexists _, _, [], []. rewrite !app_nil_r. split; [reflexivity|].
  split; constructor.
Qed.

Lemma take_promise_Forall (P : ref * Reaction -> Prop) a ps then_ rest :
  Forall P ps ->
  take_promise a ps = Some (then_, rest) ->
  P (a, then_) /\ Forall P rest.
Proof.
  revert rest. induction ps as [|[b r] ps IH]; intros rest F E; [discriminate|].
  cbn in E. inversion F as [|? ? Pb Fps]; subst.
  destruct (Nat.eqb a b) eqn:Eab.
  - apply Nat.eqb_eq in Eab. inversion E; subst. auto.
  - destruct (take_promise a ps) as [[r' rest']|]; [|discriminate].
    inversion E; subst. destruct (IH rest' Fps eq_refl). auto.
Qed.

Lemma log_or_thrown_quiet t :
  Forall (fun ev => is_log_or_thrown ev = true) t ->
  Forall (fun ev => is_resolve ev = false) t.
Proof. intros F. eapply Forall_impl; [exact F|]. now intros []. Qed.

Lemma settle_frame a o w :
  closure_never_continued w ->
  exists ps new,
    snd (settle a o w) = set_trace (trace w ++ new) (set_promises ps w) /\
    Forall (fun p => snd p = StartActionHandlers) ps /\
    Forall (fun ev => is_log_or_thrown ev = true) new.
Proof.
  intros [Fp _]. destruct w as [st q m sf h ps t]. cbn in Fp.
  unfold settle, bind, gets. cbn.
  destruct (take_promise a ps) as [[then_ rest]|] eqn:E.
  - destruct (take_promise_Forall _ a ps then_ rest Fp E) as [R Fr].
    cbn in R. subst then_. cbn.
    destruct o; cbn; eexists rest, [_]; (split; [reflexivity|]);
      split; auto; now repeat constructor.
  - exists ps, []. cbn. rewrite app_nil_r. repeat split; auto.
Qed.

Lemma PromiseQueue_turn_frame w :
  exists q new,
    snd (PromiseQueue_turn w) = set_trace (trace w ++ new) (set_queue q w) /\
    Forall (fun ev => is_log_or_thrown ev = true) new.
Proof.
  destruct w as [st [qs r] m sf h ps t]. unfold PromiseQueue_turn. cbn.
  destruct r; [exists (mkPromiseQueue qs true), []; cbn; now rewrite app_nil_r|].
  destruct qs as [|a qs]; [exists (mkPromiseQueue [] false), []; cbn; now rewrite app_nil_r|].
  destruct (h !! a) as [x|] eqn:H.
  - rewrite (serial_closure_eq a x) by exact H. cbn.
    destruct releases_on_throw; cbn; rewrite <- app_assoc;
      eexists _, [_; _]; (split; [reflexivity|]); now repeat constructor.
  - unfold serial_closure, bind, deref. cbn. rewrite H. cbn.
    destruct releases_on_throw; cbn;
      eexists _, [_]; (split; [reflexivity|]); now repeat constructor.
Qed.

Lemma snd_then_ret {A} (m : M A) (v : Value) w :
  snd (bind m (fun _ => ret v) w) = snd (m w).
Proof. unfold bind, ret. now destruct (m w) as [[u|e] w']. Qed.

Lemma invoke_kill_closure_never_continued a w :
  closure_never_continued w -> closure_never_continued (snd (invoke_kill a w)).
Proof.
  intros [Fp Ft]. destruct (invoke_kill_frame a w) as (m & new & -> & _ & F).
  split; cbn; [|apply Forall_app]; auto.
Qed.

Lemma step_closure_never_continued c w :
  base_kills_only ->
  closure_never_continued w -> closure_never_continued (snd (step c w)).
Proof.
  intros B J. pose proof J as [Fp Ft].
  destruct (public_call_keeps closure_never_continued B
              invoke_kill_closure_never_continued) with (w := w)
    as (Ks & Kt & Ke); auto.
  destruct c as [| |a|a|a|a|a o|]; cbn [step]; auto.
  - destruct (_wifiEnqueue_frame a w) as (m & h & ps & new & -> & F1 & F2).
    split; cbn; apply Forall_app; auto.
  - now apply invoke_kill_closure_never_continued.
  - rewrite snd_then_ret.
    destruct (settle_frame a o w J) as (ps & new & -> & F1 & F2).
    split; cbn; [|apply Forall_app; split; [|apply log_or_thrown_quiet]]; auto.
  - rewrite snd_then_ret.
    destruct (PromiseQueue_turn_frame w) as (q & new & -> & F).
    split; cbn; [|apply Forall_app; split; [|apply log_or_thrown_quiet]]; auto.
Qed.

Lemma run_closure_never_continued cs w :
  base_kills_only ->
  closure_never_continued w -> closure_never_continued (run cs w).
Proof.
  intros B. revert w. induction cs as [|c cs IH]; intros w J; cbn [run]; [exact J|].
  now apply IH, step_closure_never_continued.
Qed.

Lemma step_public_idle c w :
  base_keeps_to_itself ->
  public c = true -> idle w -> idle (snd (step c w)).
Proof.
  intros (E & S & T) P [Ep Ft].
  destruct c as [| |a|a|a|a|a o|]; try discriminate; cbn [step].
  - rewrite start_eq, snd_call_super.
    destruct (S (set_stopped false w)) as [sf ->]. now split.
  - rewrite stop_eq, snd_call_super.
    destruct (T (set_count ∅ (set_stopped true w))) as [sf ->]. now split.
  - destruct (E a w) as [sf Es].
    destruct (enqueue_cases a w) as [-> | [-> | [q ->]]]; rewrite ?Es; now split.
  - rewrite snd_then_ret. unfold settle, bind, gets. rewrite Ep. cbn. now split.
  - rewrite snd_then_ret.
    destruct (PromiseQueue_turn_frame w) as (q & new & -> & F).
    split; cbn; [|apply Forall_app]; auto.
Qed.

Lemma run_public_idle cs w :
  base_keeps_to_itself ->
  forallb public cs = true -> idle w -> idle (run cs w).
Proof.
  intros B. revert w. induction cs as [|c cs IH]; intros w P J; cbn [run]; [exact J|].
  cbn in P. apply andb_true_iff in P as [Pc Pcs].
  now apply IH, step_public_idle.
Qed.

Lemma log_or_thrown_counts a t :
  Forall (fun ev => is_log_or_thrown ev = true) t ->
  starts_of a t = 0 /\ kills_of a t = 0.
Proof.
  induction 1 as [|ev t E F [IH1 IH2]]; [now split|].
  destruct ev; try discriminate; now split.
Qed.


(** ** The closure of [enqueue] *)

(** C8.  No scope around line 195 binds [actionAgent].  So the closure that
    [enqueue] queues for an action logs its first line and then throws a
    [ReferenceError] for [actionAgent]: it calls no [start], builds no
    agent, and chains no handlers.  In every run that follows, no promise
    ever carries the handlers of the closure and [resolve] is never called:
    the [kill] and the [resolve(true)] of lines 201 and 202 are not
    reached (the base class being one that changes its own fields and calls
    [kill] on actions, and no more). *)
Theorem closure_throws_before_start a x w :
  heap w !! a = Some x ->
  closure_never_continued w ->
  resolve_identifier
    [closure_parameters; enqueue_variables a; module_scope] "actionAgent"
  = None /\
  serial_closure a w =
  (Throw (ReferenceError "actionAgent"),
   set_trace (trace w ++ [EvLog Debug (getId x ++ " - Peer Action Started")]) w) /\
  (base_kills_only ->
   forall cs, closure_never_continued (run (call_enqueue a :: cs) w)).
Proof.
  intros H J. split; [reflexivity|]. split; [now apply serial_closure_eq|].
  intros B cs. now apply run_closure_never_continued.
Qed.

(** ** The cleanup *)

(** C1.  The pool does not call [kill] after [start] has settled.  An action
    that [_wifiEnqueue] starts has its [start] called once; when that settles,
    resolved or rejected, or when it throws at once, the action's [kill] has
    run no more often than before.  On the way through [enqueue] neither
    [start] nor [kill] of any action is ever called (by a pool whose base
    class changes its own fields only). *)
Theorem kill_is_not_called_after_start a x o w :
  heap w !! a = Some x ->
  getActionType x <> actionType \/
  _wifiReplicationCount w !! getPeerIdentifier x <> Some 2 ->
  take_promise a (promises w) = None ->
  let w' := run [call_wifiEnqueue a; settles a o] w in
  (starts_of a (trace w') = S (starts_of a (trace w)) /\
   kills_of a (trace w') = kills_of a (trace w) /\
   promises w' = promises w) /\
  (base_keeps_to_itself ->
   forall h cs, forallb public cs = true ->
     let w'' := run (call_start :: call_enqueue a :: cs)
                    (ThaliPeerPoolOneAtATime h) in
     starts_of a (trace w'') = 0 /\ kills_of a (trace w'') = 0).
Proof.
  intros H Adm Np w'. split.
  - subst w'. cbn [run step]. rewrite snd_then_ret.
    destruct w as [st q m sf h ps t]. cbn in Np.
    assert (Tp : forall then_, take_promise a (ps ++ [(a, then_)]) = Some (then_, ps)).
    { clear -Np. intros then_. induction ps as [|[b r] ps IH]; cbn in *.
      - now rewrite Nat.eqb_refl.
      - destruct (Nat.eqb a b); [discriminate|].
        destruct (take_promise a ps); [destruct p; discriminate|].
        now rewrite IH. }
    assert (Two : _wifiReplicationCount (mkWorld st q m sf h ps t)
                    !! getPeerIdentifier x <> Some 2 ->
      get_property m (getPeerIdentifier x) <> Number 2).
    { intros N E. now apply get_property_number in E. }
    wifi_split a (mkWorld st q m sf h ps t); try congruence;
      match goal with Hx : Some _ = Some x |- _ => inversion Hx; subst end;
      try (destruct Adm as [Adm|Adm]; [congruence | now destruct (Two Adm)]);
      unfold after_admission, after_start;
      destruct (start_behaviour x); world_simpl;
      unfold settle, bind, gets; world_simpl; rewrite ?Np, ?Tp;
      destruct o; cbn -[starts_of kills_of show_count];
      rewrite !starts_of_app, !kills_of_app; unfold starts_of, kills_of; cbn;
      rewrite ?Nat.eqb_refl; cbn; repeat split; lia.
  - intros B h0 cs P w''.
    apply log_or_thrown_counts.
    apply (run_public_idle (call_start :: call_enqueue a :: cs)); [exact B | exact P|].
    split; constructor.
Qed.

(** C6.  The serial lane starts nothing.  After [start] and the [enqueue] of
    three actions, whatever follows of calls to [start], [stop] and
    [enqueue], of turns of the lane and of settling promises, no action has
    had its [start] or its [kill] called and no promise is pending (the base
    class being one that changes its own fields only). *)
Theorem serial_lane_starts_nothing A B C h cs :
  base_keeps_to_itself ->
  forallb public cs = true ->
  let w := run ([call_start; call_enqueue A; call_enqueue B; call_enqueue C] ++ cs)
               (ThaliPeerPoolOneAtATime h) in
  promises w = [] /\
  forall a, starts_of a (trace w) = 0 /\ kills_of a (trace w) = 0.
Proof.
  intros K P w.
  assert (I : idle w).
  { apply run_public_idle; [exact K | exact P | split; constructor]. }
  split; [apply I|]. intros a. apply log_or_thrown_counts, I.
Qed.

(** ** The route of an action *)

(** Whatever [_wifiEnqueue] does with an action, it does something that
    shows: it starts the action, kills it, or at least logs an error. *)
Lemma kill_events_not_nil k a m : kill_events k a m <> [].
Proof.
  revert m. induction k as [|peerId k IH]; intros m; cbn; [discriminate|].
  destruct (get_property m peerId) as [|[|[|[|n]]]|name]; auto; discriminate.
Qed.

Lemma _wifiEnqueue_adds_an_event a x w :
  heap w !! a = Some x ->
  trace (snd (_wifiEnqueue a w)) <> trace w.
Proof.
  intros H.
  assert (N : forall new, new <> [] -> trace w ++ new <> trace w).
  { intros new Hn E. apply Hn. rewrite <- (app_nil_r (trace w)) in E at 2.
    now apply app_inv_head in E. }
  wifi_split a w; try congruence;
    match goal with Hx : Some _ = Some x |- _ => inversion Hx; subst end;
    unfold after_admission, after_kill;
    rewrite ?trace_after_start; world_simpl; rewrite <- ?app_assoc;
    apply N; auto using kill_events_not_nil; try discriminate.
Qed.

(** C5.  [enqueue] does not route by medium.  On a running pool whose base
    class accepts the action, [enqueue] appends the closure of the action to
    the serial queue of the pool as the base class left it and returns what
    the base class returned, whatever the connection type, the action type
    and the peer of the action: it reads no count, writes none and starts
    nothing itself.  So when the base class changes its own fields only, the
    counts, the actions, the pending promises and the trace are as before,
    while [_wifiEnqueue] would have left an event in the trace: an action of
    a medium other than Bluetooth is not routed through the replication
    counter. *)
Theorem enqueue_takes_the_serial_lane a w v w' :
  _stopped w = false ->
  super_enqueue a w = (inl v, w') ->
  enqueue a w =
  (Normal v,
   set_queue
     (mkPromiseQueue (queued (_serialPromiseQueue w') ++ [a])
                     (running (_serialPromiseQueue w')))
     w') /\
  (keeps_to_itself w w' ->
   (_wifiReplicationCount (snd (enqueue a w)) = _wifiReplicationCount w /\
    heap (snd (enqueue a w)) = heap w /\
    promises (snd (enqueue a w)) = promises w /\
    trace (snd (enqueue a w)) = trace w /\
    queued (_serialPromiseQueue (snd (enqueue a w))) =
    queued (_serialPromiseQueue w) ++ [a]) /\
   forall x, heap w !! a = Some x ->
     unconstrained_parallel (getConnectionType x) = true ->
     ~ routed_by_medium a x w).
Proof.
  intros S E.
  assert (Q : enqueue a w =
    (Normal v,
     set_queue
       (mkPromiseQueue (queued (_serialPromiseQueue w') ++ [a])
                       (running (_serialPromiseQueue w')))
       w')).
  { unfold enqueue, bind, gets, call_super. rewrite S, E. reflexivity. }
  split; [exact Q|].
  intros [sf ->].
  assert (T : trace (snd (enqueue a w)) = trace w) by now rewrite Q.
  split; [rewrite Q; now repeat split|].
  intros x H U R. unfold routed_by_medium in R. rewrite U in R.
  destruct R as [_ R]. rewrite T in R.
  now apply (_wifiEnqueue_adds_an_event a x w H).
Qed.

(** ** More on the replication counter *)

(** X2.  An action that is not a replication action is started at once,
    whatever the counts are, also when the count of its peer is 2: the
    counts and the actions stay as they were, and the action's [kill] is
    not wrapped. *)
Theorem other_actions_are_not_counted a x w :
  heap w !! a = Some x ->
  getActionType x <> actionType ->
  let w' := snd (_wifiEnqueue a w) in
  _wifiReplicationCount w' = _wifiReplicationCount w /\
  heap w' = heap w /\
  trace w' = trace w ++ [EvStart a (VAgent (new_ForeverAgent_SSL x))] /\
  kills_of a (trace w') = kills_of a (trace w).
Proof.
  intros H Ht w'. subst w'. rewrite (_wifiEnqueue_other a x w H Ht).
  unfold after_start. destruct (start_behaviour x); world_simpl;
    rewrite kills_of_app; unfold kills_of at 2; cbn;
    rewrite Nat.add_0_r; auto.
Qed.

(** X3.  When the [start] of a replication action throws at once, the
    exception reaches the caller of [_wifiEnqueue], no promise is pending,
    and yet the count of the peer has been raised and the action's [kill]
    has been wrapped (the peer's identifier naming no inherited property). *)
Theorem throwing_start_leaves_the_count_raised a x e w :
  heap w !! a = Some x ->
  getActionType x = actionType ->
  start_behaviour x = ThrowsSynchronously e ->
  getPeerIdentifier x ∉ inherited ->
  _wifiReplicationCount w !! getPeerIdentifier x = None ->
  let w' := snd (_wifiEnqueue a w) in
  fst (_wifiEnqueue a w) = Throw (Thrown e) /\
  _wifiReplicationCount w' !! getPeerIdentifier x = Some 1 /\
  heap w' !! a = Some (set_kill (CountingKill (getPeerIdentifier x) (kill x)) x) /\
  promises w' = promises w.
Proof.
  intros H Ht Hs NI Hc w'. subst w'.
  rewrite (_wifiEnqueue_first a x w) by auto using get_property_absent.
  unfold after_admission, after_start. rewrite Hs. world_simpl.
  rewrite !lookup_insert_eq. auto.
Qed.

(** X4.  Admitting a replication action whose [kill] is its own and then
    calling its [kill] once gives back the counts there were, when the peer
    had no count or count 1. *)
Theorem admission_then_kill_restores_counts a x w :
  heap w !! a = Some x ->
  getActionType x = actionType ->
  kill x = OriginalKill ->
  _wifiReplicationCount w !! getPeerIdentifier x = None \/
  _wifiReplicationCount w !! getPeerIdentifier x = Some 1 ->
  _wifiReplicationCount (run [call_wifiEnqueue a; call_kill a] w) =
  _wifiReplicationCount w.
Proof.
  intros H Ht K Hc. cbn [run step].
  set (x' := set_kill (CountingKill (getPeerIdentifier x) (kill x)) x).
  assert (K' : kill x' = CountingKill (getPeerIdentifier x) OriginalKill)
    by (subst x'; cbn; now rewrite K).
  destruct w as [st q m sf h ps t]. cbn [heap _wifiReplicationCount] in H, Hc.
  destruct Hc as [Hc|Hc];
    [destruct (decide (getPeerIdentifier x ∈ inherited)) as [I|I]|].
  - rewrite (_wifiEnqueue_illegal a x (mkWorld st q m sf h ps t)
               (Inherited (getPeerIdentifier x)))
      by (cbn; auto using get_property_inherited).
    unfold after_start. fold x'.
    destruct (start_behaviour x); world_simpl;
      kill_call a x'; rewrite K'; cbn [kill_counts];
      now rewrite (get_property_inherited m _ Hc I).
  - rewrite (_wifiEnqueue_first a x (mkWorld st q m sf h ps t))
      by (cbn; auto using get_property_absent).
    unfold after_admission, after_start. fold x'.
    destruct (start_behaviour x); world_simpl;
      kill_call a x'; rewrite K'; cbn [kill_counts];
      rewrite get_property_insert; now apply delete_insert_id.
  - rewrite (_wifiEnqueue_second a x (mkWorld st q m sf h ps t))
      by (cbn; auto using get_property_own).
    unfold after_admission, after_start. fold x'.
    destruct (start_behaviour x); world_simpl;
      kill_call a x'; rewrite K'; cbn [kill_counts];
      rewrite get_property_insert, insert_insert_eq; now apply insert_id.
Qed.

(** X7.  One replication action handed to [_wifiEnqueue] three times: it is
    started twice and wrapped twice, and the third call, finding count 2,
    calls the wrapped [kill], which decrements twice.  The peer is left
    without a count, and the action's own [kill] has run once (the peer's
    identifier naming no inherited property). *)
Theorem resubmitted_action_is_killed_through_its_wrappers a x w :
  heap w !! a = Some x ->
  getActionType x = actionType ->
  kill x = OriginalKill ->
  getPeerIdentifier x ∉ inherited ->
  _wifiReplicationCount w !! getPeerIdentifier x = None ->
  let w' := run [call_wifiEnqueue a; call_wifiEnqueue a; call_wifiEnqueue a] w in
  _wifiReplicationCount w' !! getPeerIdentifier x = None /\
  starts_of a (trace w') = 2 + starts_of a (trace w) /\
  kills_of a (trace w') = 1 + kills_of a (trace w).
Proof.
  intros H Ht K NI Hc. cbn [run step].
  set (x1 := set_kill (CountingKill (getPeerIdentifier x) OriginalKill) x).
  set (x2 := set_kill (CountingKill (getPeerIdentifier x)
                         (CountingKill (getPeerIdentifier x) OriginalKill)) x).
  assert (K2 : kill x2 = CountingKill (getPeerIdentifier x)
                           (CountingKill (getPeerIdentifier x) OriginalKill))
    by reflexivity.
  destruct w as [st q m sf h ps t]. cbn [heap _wifiReplicationCount trace] in *.
  rewrite (_wifiEnqueue_first a x (mkWorld st q m sf h ps t))
    by (cbn; auto using get_property_absent).
  unfold after_admission, after_start. rewrite K. fold x1.
  destruct (start_behaviour x) eqn:S.
  all: world_simpl.
  all: match goal with
       | |- context [_wifiEnqueue ?b ?W] =>
           rewrite (_wifiEnqueue_second b x1 W)
             by (cbn; rewrite ?get_property_insert, ?lookup_insert_eq; auto)
       end.
  all: unfold after_admission, after_start;
    cbn [getPeerIdentifier kill x1 set_kill start_behaviour];
    fold x2; rewrite S; world_simpl; rewrite !insert_insert_eq.
  all: match goal with
       | |- context [_wifiEnqueue ?b ?W] =>
           rewrite (_wifiEnqueue_third b x2 W)
             by (cbn; rewrite ?get_property_insert, ?lookup_insert_eq; auto)
       end.
  all: unfold after_kill; rewrite K2; cbn [kill_counts kill_events];
    world_simpl;
    repeat (first [rewrite get_property_insert | rewrite insert_insert_eq
                  | rewrite get_property_delete by exact NI]; cbv beta iota);
    rewrite ?lookup_delete_eq.
  all: rewrite !starts_of_app, !kills_of_app; unfold starts_of, kills_of; cbn;
    rewrite ?Nat.eqb_refl; cbn; repeat split; lia.
Qed.

(** ** What every run of a new pool keeps *)

Lemma kill_counts_one_or_two k m :
  map_Forall (fun _ n => n = 1 \/ n = 2) m ->
  map_Forall (fun _ n => n = 1 \/ n = 2) (kill_counts k m).
Proof.
  revert m. induction k as [|peerId k IH]; intros m F; cbn; [exact F|].
  apply IH. destruct (get_property m peerId) as [|[|[|[|n]]]|name]; auto.
  - now apply map_Forall_delete.
  - apply map_Forall_insert_2; auto.
Qed.

Lemma kill_events_not_illegal k a m :
  Forall (fun ev => is_illegal_count_log ev = false) (kill_events k a m).
Proof.
  revert m. induction k as [|peerId k IH]; intros m; cbn.
  - now repeat constructor.
  - destruct (get_property m peerId) as [|[|[|[|n]]]|name]; auto; now constructor.
Qed.

Lemma settle_adds_debug_lines a o w :
  closure_never_continued w ->
  exists ps new,
    snd (settle a o w) = set_trace (trace w ++ new) (set_promises ps w) /\
    Forall (fun ev => is_illegal_count_log ev = false) new.
Proof.
  intros [Fp _]. destruct w as [st q m sf h ps t]. cbn in Fp.
  unfold settle, bind, gets. cbn.
  destruct (take_promise a ps) as [[then_ rest]|] eqn:E.
  - destruct (take_promise_Forall _ a ps then_ rest Fp E) as [R Fr].
    cbn in R. subst then_. cbn.
    destruct o; cbn; eexists rest, [_]; (split; [reflexivity|]);
      now repeat constructor.
  - exists ps, []. cbn. rewrite app_nil_r. split; auto.
Qed.

Lemma PromiseQueue_turn_adds_no_error w :
  exists q new,
    snd (PromiseQueue_turn w) = set_trace (trace w ++ new) (set_queue q w) /\
    Forall (fun ev => is_illegal_count_log ev = false) new.
Proof.
  destruct w as [st [qs r] m sf h ps t]. unfold PromiseQueue_turn. cbn.
  destruct r; [exists (mkPromiseQueue qs true), []; cbn; now rewrite app_nil_r|].
  destruct qs as [|a qs]; [exists (mkPromiseQueue [] false), []; cbn; now rewrite app_nil_r|].
  destruct (h !! a) as [x|] eqn:H.
  - rewrite (serial_closure_eq a x) by exact H. cbn.
    destruct releases_on_throw; cbn; rewrite <- app_assoc;
      eexists _, [_; _]; (split; [reflexivity|]); now repeat constructor.
  - unfold serial_closure, bind, deref. cbn. rewrite H. cbn.
    destruct releases_on_throw; cbn;
      eexists _, [_]; (split; [reflexivity|]); now repeat constructor.
Qed.

Lemma get_property_inherited_inv m key name :
  get_property m key = Inherited name -> key ∈ inherited.
Proof.
  unfold get_property. destruct (m !! key); [discriminate|].
  destruct (bool_decide (key ∈ inherited)) eqn:E; [|discriminate].
  intros _. now apply bool_decide_eq_true_1 in E.
Qed.

Lemma step_keeps_counts_one_or_two c w :
  base_kills_only ->
  closure_never_continued w ->
  counts_are_one_or_two w ->
  counts_are_one_or_two (snd (step c w)).
Proof.
  intros B J Fc. unfold counts_are_one_or_two in *.
  destruct (public_call_keeps counts_are_one_or_two B) with (w := w)
    as (Ks & Kt & Ke); auto; unfold counts_are_one_or_two.
  { intros a w' F. destruct (heap w' !! a) as [x|] eqn:H.
    - rewrite (invoke_kill_eq a x w' H). now apply kill_counts_one_or_two.
    - now rewrite (invoke_kill_miss a w' H). }
  { intros. apply map_Forall_empty. }
  destruct c as [| |a|a|a|a|a o|]; cbn [step]; auto; try apply Ke.
  - destruct w as [st q m sf h ps t]. cbn in Fc.
    wifi_split a (mkWorld st q m sf h ps t);
      unfold after_admission, after_start, after_kill;
      try destruct (start_behaviour x); world_simpl; auto;
      try (apply map_Forall_insert_2; now auto);
      now apply kill_counts_one_or_two.
  - destruct (heap w !! a) as [x|] eqn:H.
    + rewrite (invoke_kill_eq a x w H). now apply kill_counts_one_or_two.
    + now rewrite (invoke_kill_miss a w H).
  - rewrite snd_then_ret.
    destruct (settle_frame a o w J) as (ps & new & -> & _). exact Fc.
  - rewrite snd_then_ret.
    destruct (PromiseQueue_turn_frame w) as (q & new & -> & _). exact Fc.
Qed.

Lemma step_logs_no_illegal_count c w :
  base_kills_only ->
  closure_never_continued w ->
  counts_are_one_or_two w ->
  map_Forall (fun _ x => getPeerIdentifier x ∉ inherited) (heap w) /\
  Forall (fun ev => is_illegal_count_log ev = false) (trace w) ->
  map_Forall (fun _ x => getPeerIdentifier x ∉ inherited) (heap (snd (step c w))) /\
  Forall (fun ev => is_illegal_count_log ev = false) (trace (snd (step c w))).
Proof.
  intros B J Fc [Fh Ft]. unfold counts_are_one_or_two in *.
  set (I := fun w' : World =>
    map_Forall (fun _ x => getPeerIdentifier x ∉ inherited) (heap w') /\
    Forall (fun ev => is_illegal_count_log ev = false) (trace w')).
  assert (Ik : forall a w', I w' -> I (snd (invoke_kill a w'))).
  { intros a w' [F1 F2]. destruct (heap w' !! a) as [x|] eqn:H.
    - rewrite (invoke_kill_eq a x w' H). unfold after_kill. split; cbn; [exact F1|].
      apply Forall_app. split; [exact F2 | apply kill_events_not_illegal].
    - now rewrite (invoke_kill_miss a w' H). }
  destruct (public_call_keeps I B Ik) with (w := w) as (Ks & Kt & Ke);
    try (now split); try (intros ? w' Iw'; exact Iw'); try (intros w' Iw'; exact Iw').
  destruct c as [| |a|a|a|a|a o|]; cbn [step]; auto; try apply Ke.
  - destruct w as [st q m sf h ps t]. cbn in Fc, Fh, Ft.
    wifi_split a (mkWorld st q m sf h ps t);
      try (apply (map_Forall_lookup_1 _ _ _ _ Fc) in Hc; lia);
      try (apply get_property_number in Hc;
           apply (map_Forall_lookup_1 _ _ _ _ Fc) in Hc; lia);
      try (apply get_property_inherited_inv in Hc;
           now destruct (map_Forall_lookup_1 _ _ _ _ Fh Hh Hc));
      unfold after_admission, after_start, after_kill;
      try destruct (start_behaviour x); world_simpl.
    all: try (split; [apply map_Forall_insert_2;
                       [exact (map_Forall_lookup_1 _ _ _ _ Fh Hh) | exact Fh]
                     | apply Forall_app; split; [exact Ft | now repeat constructor]]).
    all: try (split; [exact Fh
                     | apply Forall_app; split; [exact Ft | apply kill_events_not_illegal]]).
    all: try (split; [exact Fh
                     | apply Forall_app; split; [exact Ft | now repeat constructor]]).
    all: split; [exact Fh | exact Ft].
  - now apply Ik.
  - rewrite snd_then_ret.
    destruct (settle_adds_debug_lines a o w J) as (ps & new & -> & F).
    split; cbn; [exact Fh | apply Forall_app; now split].
  - rewrite snd_then_ret.
    destruct (PromiseQueue_turn_adds_no_error w) as (q & new & -> & F).
    split; cbn; [exact Fh | apply Forall_app; now split].
Qed.

(** X1.  In every run of a new pool, whatever is called and in whatever
    order, every count the pool holds is 1 or 2.  When no action has a peer
    identifier that names an inherited property, the line 'We got an illegal
    count' is never logged: the [default] branch of line 128 and the
    [case 0] of line 117 are never taken.  (The base class is one that
    changes its own fields and calls [kill] on actions, and no more.) *)
Theorem counts_stay_one_or_two h cs :
  base_kills_only ->
  let w := run cs (ThaliPeerPoolOneAtATime h) in
  (forall peerId n,
     _wifiReplicationCount w !! peerId = Some n -> n = 1 \/ n = 2) /\
  ((forall a x, h !! a = Some x -> getPeerIdentifier x ∉ inherited) ->
   Forall (fun ev => is_illegal_count_log ev = false) (trace w)).
Proof.
  intros B w.
  assert (G : forall cs' w',
    closure_never_continued w' ->
    counts_are_one_or_two w' ->
    counts_are_one_or_two (run cs' w') /\
    (map_Forall (fun _ x => getPeerIdentifier x ∉ inherited) (heap w') /\
     Forall (fun ev => is_illegal_count_log ev = false) (trace w') ->
     Forall (fun ev => is_illegal_count_log ev = false) (trace (run cs' w')))).
  { induction cs' as [|c cs' IH]; intros w' J Fc; cbn [run].
    - split; [exact Fc | now intros [_ F]].
    - destruct (IH (snd (step c w'))) as [R1 R2];
        [now apply step_closure_never_continued
        | now apply step_keeps_counts_one_or_two |].
      split; [exact R1|]. intros F. apply R2.
      now apply step_logs_no_illegal_count. }
  destruct (G cs (ThaliPeerPoolOneAtATime h)) as [Fc Ft].
  - split; constructor.
  - apply map_Forall_empty.
  - split.
    + intros peerId n E. exact (map_Forall_lookup_1 _ _ _ _ Fc E).
    + intros Fh. apply Ft. split; [|constructor].
      intros a x E. exact (Fh a x E).
Qed.

(** X9.  In every run of a new pool, the settling of a [start], resolved or
    rejected, changes no count, no action and calls no [kill]: a count is
    given back only when a [kill] is called.  (The base class is one that
    changes its own fields and calls [kill] on actions, and no more.) *)
Theorem settling_frees_no_count h cs a o :
  base_kills_only ->
  let w := run cs (ThaliPeerPoolOneAtATime h) in
  let w' := run [settles a o] w in
  _wifiReplicationCount w' = _wifiReplicationCount w /\
  heap w' = heap w /\
  forall b, kills_of b (trace w') = kills_of b (trace w).
Proof.
  intros B w w'. subst w'. cbn [run step]. rewrite snd_then_ret.
  assert (J : closure_never_continued w).
  { apply run_closure_never_continued; [exact B | split; constructor]. }
  destruct (settle_frame a o w J) as (ps & new & -> & _ & F).
  world_simpl. split; [reflexivity|]. split; [reflexivity|].
  intros b. rewrite kills_of_app.
  destruct (log_or_thrown_counts b new F) as [_ ->]. lia.
Qed.

Lemma kill_counts_other_peer k m peerId other :
  wrappers_of peerId k = true ->
  peerId <> other ->
  kill_counts k m !! other = m !! other.
Proof.
  revert m. induction k as [|p k IH]; intros m W N; cbn in *; [reflexivity|].
  apply andb_true_iff in W as [E W]. apply String.eqb_eq in E. subst p.
  rewrite IH by auto.
  destruct (get_property m peerId) as [|[|[|[|n]]]|name]; auto.
  - now apply lookup_delete_ne.
  - now apply lookup_insert_ne.
Qed.

Lemma step_keeps_wrappers c w :
  base_kills_only ->
  closure_never_continued w ->
  wrapped_for_own_peer w ->
  wrapped_for_own_peer (snd (step c w)).
Proof.
  intros B J F. unfold wrapped_for_own_peer in *.
  assert (Wr : forall a x, heap w !! a = Some x ->
    map_Forall (fun _ y => wrappers_of (getPeerIdentifier y) (kill y) = true)
      (<[a := set_kill (CountingKill (getPeerIdentifier x) (kill x)) x]> (heap w))).
  { intros a x H. apply map_Forall_insert_2; [|exact F].
    cbn. rewrite String.eqb_refl. exact (map_Forall_lookup_1 _ _ _ _ F H). }
  assert (Ik : forall a w', wrapped_for_own_peer w' ->
    wrapped_for_own_peer (snd (invoke_kill a w'))).
  { intros a w' F'. destruct (invoke_kill_frame a w') as (m & new & -> & _).
    exact F'. }
  destruct (public_call_keeps wrapped_for_own_peer B Ik) with (w := w)
    as (Ks & Kt & Ke); auto.
  destruct c as [| |a|a|a|a|a o|]; cbn [step]; auto; try apply Ke.
  - destruct w as [st q m sf h ps t]. cbn [heap] in F, Wr.
    wifi_split a (mkWorld st q m sf h ps t);
      unfold after_admission, after_start, after_kill;
      try destruct (start_behaviour x); world_simpl; auto.
  - now apply Ik.
  - rewrite snd_then_ret.
    destruct (settle_frame a o w J) as (ps & new & -> & _). exact F.
  - rewrite snd_then_ret.
    destruct (PromiseQueue_turn_frame w) as (q & new & -> & _). exact F.
Qed.

Lemma run_keeps_wrappers cs w :
  base_kills_only ->
  closure_never_continued w ->
  wrapped_for_own_peer w ->
  wrapped_for_own_peer (run cs w).
Proof.
  intros B. revert w. induction cs as [|c cs IH]; intros w J F; cbn [run]; [exact F|].
  apply IH; [now apply step_closure_never_continued | now apply step_keeps_wrappers].
Qed.

(** X8.  Peers do not disturb each other.  In every run of a new pool whose
    actions came with their own [kill], handing an action to [_wifiEnqueue]
    or calling its [kill] leaves the count of every other peer as it was.
    (The base class is one that changes its own fields and calls [kill] on
    actions, and no more.) *)
Theorem other_peers_keep_their_counts h cs a x other :
  base_kills_only ->
  (forall b y, h !! b = Some y -> kill y = OriginalKill) ->
  let w := run cs (ThaliPeerPoolOneAtATime h) in
  heap w !! a = Some x ->
  getPeerIdentifier x <> other ->
  _wifiReplicationCount (run [call_wifiEnqueue a] w) !! other =
  _wifiReplicationCount w !! other /\
  _wifiReplicationCount (run [call_kill a] w) !! other =
  _wifiReplicationCount w !! other.
Proof.
  intros B Fresh w H N.
  assert (F : wrapped_for_own_peer w).
  { apply run_keeps_wrappers; [exact B | split; constructor|].
    intros b y E. cbn in E. now rewrite (Fresh b y E). }
  assert (Wx : wrappers_of (getPeerIdentifier x) (kill x) = true)
    by exact (map_Forall_lookup_1 _ _ _ _ F H).
  clearbody w. clear F Fresh. cbn [run step]. split.
  - destruct w as [st q m sf hp ps t]. cbn [_wifiReplicationCount].
    wifi_split a (mkWorld st q m sf hp ps t); try congruence;
      match goal with Hx : Some _ = Some x |- _ => inversion Hx; subst end;
      unfold after_admission, after_start, after_kill;
      try destruct (start_behaviour x); world_simpl;
      rewrite ?lookup_insert_ne by auto; auto;
      now apply kill_counts_other_peer with (getPeerIdentifier x).
  - rewrite (invoke_kill_eq a x w H). unfold after_kill. world_simpl.
    now apply kill_counts_other_peer with (getPeerIdentifier x).
Qed.

Lemma invoke_kill_keeps_actions a w :
  heap (snd (invoke_kill a w)) = heap w /\
  (_wifiReplicationCount w = ∅ ->
   _wifiReplicationCount (snd (invoke_kill a w)) = ∅).
Proof.
  destruct (invoke_kill_frame a w) as (m & new & -> & E & _). now split.
Qed.

Lemma stop_keeps_actions w :
  base_kills_only ->
  heap (snd (stop w)) = heap w /\ _wifiReplicationCount (snd (stop w)) = ∅.
Proof.
  intros (_ & _ & T). rewrite stop_eq, snd_call_super.
  apply (only_kills_keeps
           (fun w' => heap w' = heap w /\ _wifiReplicationCount w' = ∅))
    with (w := set_count ∅ (set_stopped true w)); auto.
  intros a w' [Hh Hc]. destruct (invoke_kill_keeps_actions a w') as [-> E]. auto.
Qed.

Lemma start_keeps_actions w :
  base_kills_only ->
  _wifiReplicationCount w = ∅ ->
  heap (snd (start w)) = heap w /\ _wifiReplicationCount (snd (start w)) = ∅.
Proof.
  intros (_ & S & _) Hc. rewrite start_eq, snd_call_super.
  apply (only_kills_keeps
           (fun w' => heap w' = heap w /\ _wifiReplicationCount w' = ∅))
    with (w := set_stopped false w); auto.
  intros a w' [Hh He]. destruct (invoke_kill_keeps_actions a w') as [-> E]. auto.
Qed.

(** X5.  [stop] takes no wrapper off.  An action admitted before a [stop]
    keeps its wrapped [kill]: when, after [stop] and [start], another
    replication action of the same peer has been admitted with count 1, the
    [kill] of the first action deletes that count while the promise of the
    second action's [start] is still pending.  (The peer's identifier names
    no inherited property; the base class is one that changes its own fields
    and calls [kill] on actions, and no more.) *)
Theorem wrapper_outlives_stop a1 a2 x1 x2 peerId w :
  base_kills_only ->
  peerId ∉ inherited ->
  heap w !! a1 = Some x1 -> heap w !! a2 = Some x2 -> a1 <> a2 ->
  getActionType x1 = actionType ->
  getActionType x2 = actionType ->
  getPeerIdentifier x1 = peerId ->
  getPeerIdentifier x2 = peerId ->
  kill x1 = OriginalKill ->
  start_behaviour x2 = ReturnsPromise ->
  _wifiReplicationCount w !! peerId = None ->
  let restarted :=
    run [call_wifiEnqueue a1; call_stop; call_start; call_wifiEnqueue a2] w in
  let killed := run [call_kill a1] restarted in
  _wifiReplicationCount restarted !! peerId = Some 1 /\
  _wifiReplicationCount killed !! peerId = None /\
  existsb (fun p => Nat.eqb a2 (fst p)) (promises killed) = true.
Proof.
  intros B NI H1 H2 N T1 T2 P1 P2 K1 S2 Hc. cbn [run step].
  set (x1' := set_kill (CountingKill peerId OriginalKill) x1).
  assert (K1' : kill x1' = CountingKill peerId OriginalKill) by reflexivity.
  set (W1 := snd (_wifiEnqueue a1 w)).
  assert (Hw1 : heap W1 = <[a1 := x1']> (heap w)).
  { subst W1. rewrite (_wifiEnqueue_first a1 x1 w)
      by (rewrite ?P1; auto using get_property_absent).
    unfold after_admission, after_start. rewrite P1, K1.
    destruct (start_behaviour x1); reflexivity. }
  destruct (stop_keeps_actions W1 B) as [Hh2 Hc2].
  set (W2 := snd (stop W1)) in *.
  destruct (start_keeps_actions W2 B Hc2) as [Hh3 Hc3].
  set (W3 := snd (start W2)) in *.
  assert (L2 : heap W3 !! a2 = Some x2).
  { rewrite Hh3, Hh2, Hw1, lookup_insert_ne; auto. }
  assert (L1 : heap W3 !! a1 = Some x1').
  { rewrite Hh3, Hh2, Hw1. apply lookup_insert_eq. }
  assert (G : get_property (_wifiReplicationCount W3) (getPeerIdentifier x2)
              = Undefined).
  { rewrite P2, Hc3. apply get_property_absent; [apply lookup_empty | exact NI]. }
  rewrite (_wifiEnqueue_first a2 x2 W3) by auto.
  unfold after_admission, after_start. rewrite S2, P2.
  cbn [snd]. split; [world_simpl; apply lookup_insert_eq|].
  match goal with
  | |- context [invoke_kill a1 ?W] =>
      rewrite (invoke_kill_eq a1 x1' W)
        by (world_simpl; rewrite lookup_insert_ne; auto)
  end.
  unfold after_kill. world_simpl. rewrite K1'. cbn [kill_counts].
  rewrite get_property_insert. split; [apply lookup_delete_eq|].
  rewrite existsb_app. cbn. now rewrite Nat.eqb_refl, orb_true_r.
Qed.

End Properties.

(** ** The theorems at work on the example pool *)

#[local] Existing Instance example_config.
#[local] Existing Instance example_replication.
#[local] Existing Instance example_interface.
#[local] Existing Instance releasing_lane.
#[local] Existing Instance example_prototype.

Lemma example_keeps_to_itself : base_keeps_to_itself.
Proof.
  repeat split; intros; exists tt;
    match goal with w : PoolWorld _ |- _ => destruct w as [? ? ? [] ? ? ?] end;
    reflexivity.
Qed.

Lemma example_kills_only : base_kills_only.
Proof. exact (keeps_to_itself_only_kills example_keeps_to_itself). Qed.

Lemma p1_names_no_inherited_property : "p1" ∉ inherited.
Proof. intros H. apply (bool_decide_eq_true_2 _) in H. discriminate. Qed.

Lemma p2_names_no_inherited_property : "p2" ∉ inherited.
Proof. intros H. apply (bool_decide_eq_true_2 _) in H. discriminate. Qed.

Lemma constructor_names_an_inherited_property : "constructor" ∈ inherited.
Proof. apply (bool_decide_eq_true_1 ("constructor" ∈ inherited)). reflexivity. Qed.

Lemma prototype_named_peer_is_not_capped_witness :
  let w3 := run [call_wifiEnqueue 6; call_wifiEnqueue 7; call_wifiEnqueue 8]
                constructor_running in
  _wifiReplicationCount w3 = _wifiReplicationCount constructor_running /\
  starts_of 8 (trace w3) = S (starts_of 8 (trace constructor_running)) /\
  kills_of 8 (trace w3) = kills_of 8 (trace constructor_running).
Proof.
  intros w3.
  destruct (prototype_named_peer_is_not_capped 6 7 8
              (replication_action "c6" "constructor")
              (replication_action "c7" "constructor")
              (replication_action "c8" "constructor")
              "constructor" constructor_running
              constructor_names_an_inherited_property)
    as (_ & C & S & K); try first [reflexivity | discriminate].
  split; [exact C|]. split; [exact S | exact K].
Defined.

(** The same three calls for a peer called [constructor], as a trace. *)
Example constructor_peer_trace :
  map (fun ev => match ev with EvStart a _ => Some a | _ => None end)
    (trace (run [call_wifiEnqueue 6; call_wifiEnqueue 7; call_wifiEnqueue 8]
                constructor_running)) =
  [None; Some 6; None; Some 7; None; Some 8] /\
  _wifiReplicationCount
    (run [call_wifiEnqueue 6; call_wifiEnqueue 7; call_wifiEnqueue 8]
         constructor_running) = ∅.
Proof. split; reflexivity. Qed.

(** The three calls for an ordinary peer. *)
Example third_replication_is_killed_at_p1 :
  let w2 := run [call_wifiEnqueue 1; call_wifiEnqueue 2] example_running in
  _wifiReplicationCount example_running !! "p1" = None /\
  _wifiReplicationCount w2 !! "p1" = Some 2 /\
  fst (_wifiEnqueue 3 w2) = Normal VNull /\
  trace (snd (_wifiEnqueue 3 w2)) = trace w2 ++ [EvKill 3] /\
  _wifiReplicationCount (snd (_wifiEnqueue 3 w2)) !! "p1" = Some 2.
Proof.
  intros w2.
  destruct (third_replication_is_killed 1 2 3
              (replication_action "a1" "p1") (replication_action "a2" "p1")
              (replication_action "a3" "p1") "p1" example_running
              p1_names_no_inherited_property)
    as (_ & [C2 _] & R & T & _ & _ & C3);
    try first [reflexivity | discriminate | now left].
  split; [reflexivity|]. split; [exact C2|]. split; [exact R|].
  split; [exact T | exact C3].
Qed.

Lemma kill_wrapper_decrements_and_delegates_witness :
  let w1 := snd (_wifiEnqueue 1 example_running) in
  _wifiReplicationCount w1 !! "p1" = Some 1 /\
  _wifiReplicationCount (snd (invoke_kill 1 w1)) !! "p1" = None /\
  kills_of 1 (trace (snd (invoke_kill 1 w1))) = 1.
Proof.
  destruct (kill_wrapper_decrements_and_delegates 1
              (replication_action "a1" "p1") example_running)
    as (x' & H & _ & K); try reflexivity; try discriminate.
  destruct (K (snd (_wifiEnqueue 1 example_running)) H) as (_ & _ & D & _ & N).
  split; [reflexivity|]. split; [apply D; reflexivity | exact N].
Defined.

Lemma kill_wrapper_decrements_at_every_call_witness :
  let admitted := run [call_wifiEnqueue 1; call_wifiEnqueue 2] example_running in
  let killed_twice := run [call_kill 1] (run [call_kill 1] admitted) in
  _wifiReplicationCount admitted !! "p1" = Some 2 /\
  _wifiReplicationCount killed_twice !! "p1" = None /\
  in_flight 2 killed_twice = true.
Proof.
  intros admitted killed_twice.
  destruct (kill_wrapper_decrements_at_every_call 1 2
              (replication_action "a1" "p1") (replication_action "a2" "p1")
              "p1" example_running p1_names_no_inherited_property)
    as (C2 & _ & C0 & F & _); try reflexivity; try discriminate.
  split; [exact C2|]. split; [exact C0 | exact F].
Defined.

Lemma started_action_gets_its_agent_witness :
  exists new,
    trace (snd (_wifiEnqueue 1 example_running)) = trace example_running ++ new /\
    EvStart 1
      (VAgent {| keepAlive := true; keepAliveMsecs := Num (15000 / 2);
                 maxSockets := Infinity; maxFreeSockets := Num 256;
                 ciphers := "PSK-AES256-CBC-SHA";
                 pskIdentity := "identity"; pskKey := "key" |}) ∈ new.
Proof.
  destruct (started_action_gets_its_agent 1 (replication_action "a1" "p1")
              example_running eq_refl) as (new & T & _ & S).
  exists new. split; [exact T|]. apply S. right. discriminate.
Defined.

Lemma enqueue_when_stopped_throws_witness :
  enqueue 1 example_pool = (Throw (Error "We are stopped"), example_pool) /\
  fst (enqueue 1 (snd (start example_pool))) <> Throw (Error "We are stopped").
Proof.
  destruct (enqueue_when_stopped_throws 1 example_heap example_pool
              (or_introl eq_refl)) as (E & _ & _ & N).
  split; [exact E | exact (N example_kills_only)].
Defined.



Lemma closure_throws_before_start_witness :
  fst (serial_closure 1 example_running) = Throw (ReferenceError "actionAgent") /\
  closure_never_continued
    (run [call_enqueue 1; lane_turn; settles 1 Resolves] example_running).
Proof.
  destruct (closure_throws_before_start 1 (replication_action "a1" "p1")
              example_running eq_refl) as (_ & E & J).
  - split; constructor.
  - split; [now rewrite E
           | apply (J example_kills_only [lane_turn; settles 1 Resolves])].
Defined.

Lemma kill_is_not_called_after_start_witness :
  let w := run [call_wifiEnqueue 4; settles 4 Resolves] example_running in
  (starts_of 4 (trace w) = 1 /\ kills_of 4 (trace w) = 0 /\ promises w = []) /\
  kills_of 4 (trace (run [call_start; call_enqueue 4; lane_turn; call_stop]
                         (ThaliPeerPoolOneAtATime example_heap))) = 0.
Proof.
  destruct (kill_is_not_called_after_start 4 (notification_action "n4" "p1")
              Resolves example_running eq_refl) as ((S & K & P) & Q).
  - left. discriminate.
  - reflexivity.
  - split; [split; [exact S|]; split; [exact K | exact P]|].
    exact (proj2 (Q example_keeps_to_itself example_heap [lane_turn; call_stop] eq_refl)).
Defined.

Lemma serial_lane_starts_nothing_witness :
  let w := run ([call_start; call_enqueue 1; call_enqueue 2; call_enqueue 3] ++
                [lane_turn; lane_turn; lane_turn; settles 1 Resolves])
               example_pool in
  starts_of 2 (trace w) = 0 /\ kills_of 1 (trace w) = 0.
Proof.
  destruct (serial_lane_starts_nothing 1 2 3 example_heap
              [lane_turn; lane_turn; lane_turn; settles 1 Resolves]
              example_keeps_to_itself eq_refl)
    as (_ & N).
  split; [apply (N 2) | apply (N 1)].
Defined.

Lemma enqueue_takes_the_serial_lane_witness :
  queued (_serialPromiseQueue (snd (enqueue 1 example_running))) = [1] /\
  _wifiReplicationCount (snd (enqueue 1 example_running)) = ∅ /\
  trace (snd (enqueue 1 example_running)) = [] /\
  ~ routed_by_medium 1 (replication_action "a1" "p1") example_running.
Proof.
  destruct (enqueue_takes_the_serial_lane 1 example_running VNull example_running
              eq_refl eq_refl) as [_ K].
  destruct (K (ex_intro _ tt eq_refl)) as ((C & _ & _ & T & Q) & R).
  split; [exact Q|]. split; [exact C|]. split; [exact T|].
  apply R; reflexivity.
Defined.

(** The routing by medium fails at action 1, a replication action over TCP:
    [enqueue] neither counts it nor starts it. *)
Lemma enqueue_is_not_routed_by_medium :
  ~ routed_by_medium 1 (replication_action "a1" "p1") example_running.
Proof.
  unfold routed_by_medium. cbn [unconstrained_parallel getConnectionType replication_action].
  intros [_ T]. vm_compute in T. discriminate.
Qed.

(** The closures of the serial lane run in the order of submission when the
    lane is released after an exception, and each stops at [actionAgent]. *)
Example serial_lane_trace_releasing :
  trace (run [call_start; call_enqueue 1; call_enqueue 2; call_enqueue 3;
              lane_turn; lane_turn; lane_turn] example_pool) =
  [ EvLog Debug "a1 - Peer Action Started"; EvThrown (ReferenceError "actionAgent");
    EvLog Debug "a2 - Peer Action Started"; EvThrown (ReferenceError "actionAgent");
    EvLog Debug "a3 - Peer Action Started"; EvThrown (ReferenceError "actionAgent") ].
Proof. reflexivity. Qed.

(** When the lane stays taken after an exception, only the first closure
    runs. *)
Example serial_lane_trace_holding :
  trace (run (lane := holding_lane)
           [call_start; call_enqueue 1; call_enqueue 2; call_enqueue 3;
            lane_turn; lane_turn; lane_turn] example_pool) =
  [ EvLog Debug "a1 - Peer Action Started"; EvThrown (ReferenceError "actionAgent") ].
Proof. reflexivity. Qed.

(** The scenario of the replication counter: two admitted, a third killed,
    the first killed by its owner, a fourth admitted. *)
Example replication_counter_scenario :
  let w := run [call_wifiEnqueue 1; call_wifiEnqueue 2; call_wifiEnqueue 3;
                call_kill 1] example_running in
  _wifiReplicationCount w !! "p1" = Some 1 /\
  _wifiReplicationCount (run [call_wifiEnqueue 3] w) !! "p1" = Some 2.
Proof. split; reflexivity. Qed.

Lemma counts_stay_one_or_two_witness :
  let w := run [call_start; call_wifiEnqueue 1; call_wifiEnqueue 2;
                call_wifiEnqueue 3; call_kill 1; call_stop]
               (ThaliPeerPoolOneAtATime example_heap) in
  (forall peerId n,
     _wifiReplicationCount w !! peerId = Some n -> n = 1 \/ n = 2) /\
  Forall (fun ev => is_illegal_count_log ev = false) (trace w).
Proof.
  intros w.
  destruct (counts_stay_one_or_two example_heap
              [call_start; call_wifiEnqueue 1; call_wifiEnqueue 2;
               call_wifiEnqueue 3; call_kill 1; call_stop] example_kills_only)
    as (C & L).
  split; [exact C|]. apply L.
  intros b y E. unfold example_heap in E.
  repeat (apply lookup_insert_Some in E as [[_ <-]|[_ E]];
          [exact p1_names_no_inherited_property|]).
  rewrite lookup_empty in E. discriminate.
Defined.

Lemma settling_frees_no_count_witness :
  let w := run [call_start; call_wifiEnqueue 1] (ThaliPeerPoolOneAtATime example_heap) in
  _wifiReplicationCount w !! "p1" = Some 1 /\
  _wifiReplicationCount (run [settles 1 Resolves] w) = _wifiReplicationCount w.
Proof.
  intros w. split; [reflexivity|].
  exact (proj1 (settling_frees_no_count example_heap
                  [call_start; call_wifiEnqueue 1] 1 Resolves example_kills_only)).
Defined.

Lemma other_actions_are_not_counted_witness :
  let w := run [call_wifiEnqueue 1; call_wifiEnqueue 2] example_running in
  _wifiReplicationCount w !! "p1" = Some 2 /\
  _wifiReplicationCount (snd (_wifiEnqueue 4 w)) = _wifiReplicationCount w /\
  heap (snd (_wifiEnqueue 4 w)) = heap w.
Proof.
  intros w. split; [reflexivity|].
  destruct (other_actions_are_not_counted 4 (notification_action "n4" "p1") w)
    as (C & H & _); [reflexivity | discriminate |].
  split; [exact C | exact H].
Defined.

Lemma throwing_start_leaves_the_count_raised_witness :
  fst (_wifiEnqueue 5 second_running) = Throw (Thrown "boom") /\
  _wifiReplicationCount (snd (_wifiEnqueue 5 second_running)) !! "p2" = Some 1 /\
  promises (snd (_wifiEnqueue 5 second_running)) = promises second_running.
Proof.
  destruct (throwing_start_leaves_the_count_raised 5 (throwing_action "a5" "p2")
              "boom" second_running) as (T & C & _ & P);
    try reflexivity; [exact p2_names_no_inherited_property|].
  split; [exact T|]. split; [exact C | exact P].
Defined.

Lemma admission_then_kill_restores_counts_witness :
  _wifiReplicationCount (run [call_wifiEnqueue 1; call_kill 1] example_running) =
  _wifiReplicationCount example_running.
Proof.
  apply (admission_then_kill_restores_counts 1 (replication_action "a1" "p1"));
    try reflexivity. now left.
Defined.

Lemma resubmitted_action_is_killed_through_its_wrappers_witness :
  let w' := run [call_wifiEnqueue 1; call_wifiEnqueue 1; call_wifiEnqueue 1]
                example_running in
  _wifiReplicationCount w' !! "p1" = None /\
  kills_of 1 (trace w') = 1 + kills_of 1 (trace example_running).
Proof.
  intros w'.
  destruct (resubmitted_action_is_killed_through_its_wrappers 1
              (replication_action "a1" "p1") example_running)
    as (C & _ & K); try reflexivity; [exact p1_names_no_inherited_property|].
  split; [exact C | exact K].
Defined.

Lemma other_peers_keep_their_counts_witness :
  let w := run [call_start; call_wifiEnqueue 1; call_wifiEnqueue 2]
               (ThaliPeerPoolOneAtATime second_heap) in
  _wifiReplicationCount w !! "p1" = Some 2 /\
  _wifiReplicationCount (run [call_wifiEnqueue 5] w) !! "p1" =
  _wifiReplicationCount w !! "p1" /\
  _wifiReplicationCount (run [call_kill 5] w) !! "p1" =
  _wifiReplicationCount w !! "p1".
Proof.
  intros w. split; [reflexivity|].
  apply (other_peers_keep_their_counts second_heap
           [call_start; call_wifiEnqueue 1; call_wifiEnqueue 2] 5
           (throwing_action "a5" "p2") "p1" example_kills_only).
  - intros b y E. unfold second_heap, example_heap in E.
    repeat (apply lookup_insert_Some in E as [[_ <-]|[_ E]]; [reflexivity|]).
    rewrite lookup_empty in E. discriminate.
  - reflexivity.
  - discriminate.
Defined.

Lemma wrapper_outlives_stop_witness :
  let restarted :=
    run [call_wifiEnqueue 1; call_stop; call_start; call_wifiEnqueue 2]
        example_running in
  let killed := run [call_kill 1] restarted in
  _wifiReplicationCount restarted !! "p1" = Some 1 /\
  _wifiReplicationCount killed !! "p1" = None /\
  existsb (fun p => Nat.eqb 2 (fst p)) (promises killed) = true.
Proof.
  apply (wrapper_outlives_stop 1 2 (replication_action "a1" "p1")
           (replication_action "a2" "p1") "p1" example_running
           example_kills_only p1_names_no_inherited_property);
    try reflexivity. discriminate.
Defined.
